(** * Vocabulary extraction pipeline: a shallow embedding

    The TypeScript sources embedded here are
    - [src/vocabulary.ts]: response parser, settings resolver, extraction
      orchestrator and fallback extractor;
    - [src/lib/genius.ts] ([extractLyricsFromHtml]);
    - [src/db/settings.ts] and [src/db/d1.ts]: the word and synonym upserts.

    Conventions.
    - A JavaScript string is the list of its UTF-16 code units ([list N]);
      [length] is therefore the JavaScript [.length].
    - A JavaScript number is [number]: a finite value (a rational, which
      covers every finite double; rounding and the sign of zero are not
      modelled), [NaN], or one of the two infinities.
    - [undefined] / [null] / an absent property are [None].
    - Code that can throw returns [result]. *)

From Stdlib Require Import QArith Qround.
From stdpp Require Import gmap strings list fin_maps.

Local Open Scope N_scope.

(* ===================================================================== *)
(** ** JavaScript strings *)
(* ===================================================================== *)

Abbreviation jsstring := (list N).

Module Utf.

(** Decoding of a UTF-8 byte sequence into UTF-16 code units, so that string
    literals of the sources can be written as they are. *)

Definition cont (b : N) : N := N.land b 63.

Definition utf16 (cp : N) : jsstring :=
  if cp <? 65536 then [cp]
  else [55296 + N.shiftr (cp - 65536) 10; 56320 + N.land (cp - 65536) 1023].

Fixpoint decode (bs : list N) : jsstring :=
  match bs with
  | [] => []
  | b :: r =>
      if b <? 128 then b :: decode r
      else if b <? 224 then
        match r with
        | b1 :: r' => utf16 (N.land b 31 * 64 + cont b1) ++ decode r'
        | _ => [b]
        end
      else if b <? 240 then
        match r with
        | b1 :: b2 :: r' =>
            utf16 (N.land b 15 * 4096 + cont b1 * 64 + cont b2) ++ decode r'
        | _ => [b]
        end
      else
        match r with
        | b1 :: b2 :: b3 :: r' =>
            utf16 (N.land b 7 * 262144 + cont b1 * 4096 + cont b2 * 64 + cont b3)
              ++ decode r'
        | _ => [b]
        end
  end.

End Utf.

(** A source literal as a JavaScript string. *)
Definition js (s : string) : jsstring :=
  Utf.decode (List.map Ascii.N_of_ascii (String.list_ascii_of_string s)).

(** A source literal in which the apostrophe stands for the double quote. *)
Definition jsq (s : string) : jsstring :=
  List.map (fun c => if c =? 39 then 34 else c) (js s).

Definition isWhiteSpace (c : N) : bool :=
  bool_decide (c ∈ [9; 10; 11; 12; 13; 32; 160; 5760; 8232; 8233; 8239; 8287; 12288; 65279])
  || ((8192 <=? c) && (c <=? 8202)).

Fixpoint trimStart (s : jsstring) : jsstring :=
  match s with
  | c :: r => if isWhiteSpace c then trimStart r else s
  | [] => []
  end.

Definition trimEnd (s : jsstring) : jsstring := rev (trimStart (rev s)).

(** [String.prototype.trim] *)
Definition trim (s : jsstring) : jsstring := trimEnd (trimStart s).

(** [s.indexOf(c)] for a one-character needle; [None] is JavaScript's -1. *)
Fixpoint indexOf (c : N) (s : jsstring) : option nat :=
  match s with
  | [] => None
  | d :: r => if d =? c then Some 0%nat else S <$> indexOf c r
  end.

(** [s.substring(a, b)] for [a <= b]. *)
Definition substring (a b : nat) (s : jsstring) : jsstring :=
  take (b - a) (drop a s).

(** [s.startsWith(p)] at the head of [s]. *)
Fixpoint startsWith (p s : jsstring) : bool :=
  match p, s with
  | [], _ => true
  | a :: p', b :: s' => (a =? b) && startsWith p' s'
  | _ :: _, [] => false
  end.

(** The case mapping of ASCII letters. *)
Definition asciiLower (c : N) : N :=
  if (65 <=? c) && (c <=? 90) then c + 32 else c.

Definition isAscii (c : N) : Prop := c < 128.

(** [String.prototype.toLowerCase] follows the Unicode case mapping tables;
    the development is parametric in it and only relies on what it does on
    ASCII text. *)
Class CaseMapping := {
  toLowerCase : jsstring -> jsstring;
  toLowerCase_ascii :
    forall s, Forall isAscii s -> toLowerCase s = List.map asciiLower s
}.

(** The mapping that lowers ASCII letters and leaves every other code unit. *)
#[refine] Definition asciiCaseMapping : CaseMapping :=
  {| toLowerCase := List.map asciiLower |}.
Proof. reflexivity. Defined.

(* ===================================================================== *)
(** ** JavaScript numbers *)
(* ===================================================================== *)

Inductive number :=
| Fin (q : Q)
| NaN
| PosInf
| NegInf.

Definition ofNat (n : nat) : number := Fin (inject_Z (Z.of_nat n)).
Definition ofZ (z : Z) : number := Fin (inject_Z z).

(** [a <= b] *)
Definition num_le (a b : number) : bool :=
  match a, b with
  | NaN, _ | _, NaN => false
  | Fin x, Fin y => Qle_bool x y
  | NegInf, _ => true
  | _, PosInf => true
  | _, _ => false
  end.

(** [a >= b] *)
Definition num_ge (a b : number) : bool := num_le b a.

Definition isFinite (a : number) : bool :=
  match a with Fin _ => true | _ => false end.

(** [a + b] *)
Definition num_add (a b : number) : number :=
  match a, b with
  | NaN, _ | _, NaN => NaN
  | Fin x, Fin y => Fin (x + y)
  | PosInf, NegInf | NegInf, PosInf => NaN
  | PosInf, _ | _, PosInf => PosInf
  | NegInf, _ | _, NegInf => NegInf
  end.

(** Truncation toward zero. *)
Definition Qtrunc (q : Q) : Z :=
  if Qle_bool 0 q then Qfloor q else Qceiling q.

(** [Array.prototype.slice(0, end)]. *)
Definition slice0 {A} (endN : number) (l : list A) : list A :=
  match endN with
  | NaN | NegInf => []
  | PosInf => l
  | Fin q =>
      let k := Qtrunc q in
      if (k <? 0)%Z then take (length l - Z.to_nat (- k)) l
      else take (Z.to_nat k) l
  end.

(* ===================================================================== *)
(** ** Exceptions *)
(* ===================================================================== *)

Inductive error :=
| MissingApiKey        (* "GEMINI_API_KEY is required in env" *)
| InvalidJson          (* "Gemini returned invalid JSON for vocabulary" *)
| NoLyrics             (* "Could not extract lyrics from page" *)
| RangeError           (* String.fromCodePoint on an invalid code point *)
| ModelError           (* any exception of the model client *)
| ConstraintViolation. (* a UNIQUE constraint of the store *)

Inductive result (A : Type) :=
| Ok (a : A)
| Throw (e : error).
Arguments Ok {A} a.
Arguments Throw {A} e.

#[global] Instance result_ret : MRet result := fun A a => Ok a.

#[global] Instance result_bind : MBind result := fun A B k r =>
  match r with
  | Ok a => k a
  | Throw e => Throw e
  end.

Definition isThrow {A} (r : result A) : bool :=
  match r with Throw _ => true | Ok _ => false end.

(* ===================================================================== *)
(** ** JSON values and [JSON.parse] *)
(* ===================================================================== *)

#[warnings="-register-all"]
Inductive json :=
| JNull
| JBool (b : bool)
| JNumber (q : Q)
| JString (s : jsstring)
| JArray (items : list json)
| JObject (members : list (jsstring * json)).

(** Property read [o.k] on a parsed object: a name written twice in the text
    denotes its last value. *)
Definition getProp (k : jsstring) (members : list (jsstring * json)) : option json :=
  snd <$> List.find (fun m => bool_decide (fst m = k)) (rev members).

Module Json.

Inductive token :=
| TLBracket | TRBracket | TLBrace | TRBrace | TComma | TColon
| TString (s : jsstring)
| TNumber (q : Q)
| TTrue | TFalse | TNull.

Definition isJsonWs (c : N) : bool :=
  (c =? 32) || (c =? 9) || (c =? 10) || (c =? 13).

Definition isDigit (c : N) : bool := (48 <=? c) && (c <=? 57).

Definition hexValue (c : N) : option N :=
  if isDigit c then Some (c - 48)
  else if (97 <=? c) && (c <=? 102) then Some (c - 87)
  else if (65 <=? c) && (c <=? 70) then Some (c - 55)
  else None.

Definition hex4 (a b c d : N) : option N :=
  x ← hexValue a; y ← hexValue b; z ← hexValue c; w ← hexValue d;
  Some (((x * 16 + y) * 16 + z) * 16 + w).

(** The character after a backslash, other than [u]. *)
Definition unescape (e : N) : option N :=
  if (e =? 34) || (e =? 92) || (e =? 47) then Some e
  else if e =? 98 then Some 8
  else if e =? 102 then Some 12
  else if e =? 110 then Some 10
  else if e =? 114 then Some 13
  else if e =? 116 then Some 9
  else None.

Definition consFst (c : N) (o : option (jsstring * jsstring)) :=
  '(str, r) ← o; Some (c :: str, r).

(** The body of a string literal, after its opening quote. *)
Fixpoint lexString (s : jsstring) : option (jsstring * jsstring) :=
  match s with
  | [] => None
  | c :: r =>
      if c =? 34 then Some ([], r)
      else if c =? 92 then
        match r with
        | [] => None
        | e :: r1 =>
            if e =? 117 then
              match r1 with
              | a :: b :: c' :: d :: r2 =>
                  match hex4 a b c' d with
                  | Some u => consFst u (lexString r2)
                  | None => None
                  end
              | _ => None
              end
            else
              match unescape e with
              | Some u => consFst u (lexString r1)
              | None => None
              end
        end
      else if c <? 32 then None
      else consFst c (lexString r)
  end.

Fixpoint spanDigits (s : jsstring) : jsstring * jsstring :=
  match s with
  | c :: r =>
      if isDigit c then let '(d, t) := spanDigits r in (c :: d, t) else ([], s)
  | [] => ([], [])
  end.

Definition digitsValue (d : jsstring) : Z :=
  fold_left (fun acc c => (acc * 10 + Z.of_N (c - 48))%Z) d 0%Z.

(** The value [m * 10^x]. *)
Definition decimal (m x : Z) : Q :=
  if (0 <=? x)%Z then inject_Z (m * 10 ^ x)
  else Qred (Qmake m (Z.to_pos (10 ^ (- x)))).

(** A number literal: an optional minus sign, an integer part with no
    leading zero, an optional fraction and an optional exponent. *)
Definition lexNumber (s : jsstring) : option (Q * jsstring) :=
  let '(neg, s1) :=
    match s with
    | c :: r => if c =? 45 then (true, r) else (false, s)
    | [] => (false, s)
    end in
  let '(ip, s2) := spanDigits s1 in
  match ip with
  | [] => None
  | d0 :: ip' =>
      if (d0 =? 48) && negb (bool_decide (ip' = [])) then None
      else
        '(fd, s3) ←
          match s2 with
          | c :: r =>
              if c =? 46 then
                let '(fd, t) := spanDigits r in
                if bool_decide (fd = []) then None else Some (fd, t)
              else Some ([], s2)
          | [] => Some ([], s2)
          end;
        '(ex, s4) ←
          match s3 with
          | c :: r =>
              if (c =? 101) || (c =? 69) then
                let '(sgn, r1) :=
                  match r with
                  | c1 :: r' =>
                      if c1 =? 45 then ((-1)%Z, r')
                      else if c1 =? 43 then (1%Z, r')
                      else (1%Z, r)
                  | [] => (1%Z, r)
                  end in
                let '(ed, t) := spanDigits r1 in
                if bool_decide (ed = []) then None
                else Some ((sgn * digitsValue ed)%Z, t)
              else Some (0%Z, s3)
          | [] => Some (0%Z, s3)
          end;
        let m := digitsValue (ip ++ fd) in
        let m' := if neg : bool then (- m)%Z else m in
        Some (decimal m' (ex - Z.of_nat (length fd)), s4)
  end.

Fixpoint lex (fuel : nat) (s : jsstring) : option (list token) :=
  match fuel with
  | O => None
  | S fuel =>
      match s with
      | [] => Some []
      | c :: r =>
          if isJsonWs c then lex fuel r
          else if c =? 91 then cons TLBracket <$> lex fuel r
          else if c =? 93 then cons TRBracket <$> lex fuel r
          else if c =? 123 then cons TLBrace <$> lex fuel r
          else if c =? 125 then cons TRBrace <$> lex fuel r
          else if c =? 44 then cons TComma <$> lex fuel r
          else if c =? 58 then cons TColon <$> lex fuel r
          else if c =? 34 then
            '(str, r') ← lexString r; cons (TString str) <$> lex fuel r'
          else if startsWith (js "true") s then cons TTrue <$> lex fuel (drop 4 s)
          else if startsWith (js "false") s then cons TFalse <$> lex fuel (drop 5 s)
          else if startsWith (js "null") s then cons TNull <$> lex fuel (drop 4 s)
          else if (c =? 45) || isDigit c then
            '(q, r') ← lexNumber s; cons (TNumber q) <$> lex fuel r'
          else None
      end
  end.

Fixpoint parseValue (fuel : nat) (ts : list token) : option (json * list token) :=
  match fuel with
  | O => None
  | S fuel =>
      match ts with
      | TNull :: r => Some (JNull, r)
      | TTrue :: r => Some (JBool true, r)
      | TFalse :: r => Some (JBool false, r)
      | TString s :: r => Some (JString s, r)
      | TNumber q :: r => Some (JNumber q, r)
      | TLBracket :: TRBracket :: r => Some (JArray [], r)
      | TLBracket :: r => parseElements fuel r []
      | TLBrace :: TRBrace :: r => Some (JObject [], r)
      | TLBrace :: r => parseMembers fuel r []
      | _ => None
      end
  end
with parseElements (fuel : nat) (ts : list token) (acc : list json)
  : option (json * list token) :=
  match fuel with
  | O => None
  | S fuel =>
      match parseValue fuel ts with
      | Some (v, TComma :: r) => parseElements fuel r (v :: acc)
      | Some (v, TRBracket :: r) => Some (JArray (rev (v :: acc)), r)
      | _ => None
      end
  end
with parseMembers (fuel : nat) (ts : list token) (acc : list (jsstring * json))
  : option (json * list token) :=
  match fuel with
  | O => None
  | S fuel =>
      match ts with
      | TString k :: TColon :: r =>
          match parseValue fuel r with
          | Some (v, TComma :: r') => parseMembers fuel r' ((k, v) :: acc)
          | Some (v, TRBrace :: r') => Some (JObject (rev ((k, v) :: acc)), r')
          | _ => None
          end
      | _ => None
      end
  end.

(** [JSON.parse(text)]; [None] is the [SyntaxError]. *)
Definition parse (text : jsstring) : option json :=
  ts ← lex (S (length text)) text;
  match parseValue (2 * length ts + 2) ts with
  | Some (v, []) => Some v
  | _ => None
  end.

End Json.

Local Close Scope N_scope.

(* ===================================================================== *)
(** ** src/vocabulary.ts: data model *)
(* ===================================================================== *)

Inductive VocabularyLanguage := en | ko.

Inductive VocabularyLevel := beginner | intermediate | advanced.

Record VocabularyOptions := {
  language : VocabularyLanguage;
  maxWords : option number;
  minLength : option number;
  level : option VocabularyLevel
}.

Record VocabularyEntry := {
  word : jsstring;
  score : option number;
  meaning : option jsstring;
  example : option jsstring;
  synonyms : option (list jsstring);
  occurrences : option number;
  songTitle : option jsstring;
  songArtist : option jsstring
}.

Record VocabularyEnv := {
  GEMINI_API_KEY : option jsstring;
  GEMINI_MODEL : option jsstring;
  GEMINI_BASE_URL : option jsstring
}.

Record UserVocabularySettingsRow := {
  row_language : jsstring;
  row_level : jsstring;
  max_words : number;
  min_length : number
}.

Definition DEFAULT_VOCABULARY_OPTIONS : VocabularyOptions :=
  {| language := en;
     level := Some intermediate;
     maxWords := Some (ofZ 30);
     minLength := Some (ofZ 2) |}.

(** [{...e, occurrences: n}] *)
Definition withOccurrences (e : VocabularyEntry) (n : number) : VocabularyEntry :=
  {| word := word e; score := score e; meaning := meaning e; example := example e;
     synonyms := synonyms e; occurrences := Some n;
     songTitle := songTitle e; songArtist := songArtist e |}.

(* ===================================================================== *)
(** ** src/vocabulary.ts: the response parser *)
(* ===================================================================== *)

(** The bracket scan of [parseVocabularyResponse]: [s] is the text from index
    [i] on and [depth] the nesting depth before it; the result is the index at
    which the depth is back to zero. *)
Fixpoint matchBracket (s : jsstring) (depth : Z) (i : nat) : option nat :=
  match s with
  | [] => None
  | c :: r =>
      let depth' :=
        if (c =? 91)%N then (depth + 1)%Z
        else if (c =? 93)%N then (depth - 1)%Z
        else depth in
      if (depth' =? 0)%Z then Some i else matchBracket r depth' (S i)
  end.

(** The text handed to [JSON.parse]. *)
Definition jsonStr (trimmed : jsstring) : jsstring :=
  match indexOf 91%N trimmed with
  | None => trimmed
  | Some firstBracket =>
      match matchBracket (drop firstBracket trimmed) 0 firstBracket with
      | Some i => substring firstBracket (i + 1) trimmed
      | None => trimmed
      end
  end.

Definition asString (v : json) : option jsstring :=
  match v with JString s => Some s | _ => None end.

Definition asNumber (v : json) : option number :=
  match v with JNumber q => Some (Fin q) | _ => None end.

Definition nonEmpty (s : jsstring) : bool :=
  match s with [] => false | _ => true end.

(** The [synonyms] of a normalized entry. *)
Definition normalizeSynonyms (raw : option json) : option (list jsstring) :=
  match raw with
  | Some (JArray items) =>
      match List.filter nonEmpty (List.map trim (omap asString items)) with
      | [] => None
      | l => Some l
      end
  | _ => None
  end.

(** The first [filter] and the [map] of [parseVocabularyResponse] on one
    element: [None] when the element is dropped (it is [null], not an object,
    or has no string [word]; an array has no [word] property). *)
Definition normalize (e : json) : option VocabularyEntry :=
  match e with
  | JObject raw =>
      match getProp (js "word") raw with
      | Some (JString w) =>
          Some {| word := trim w;
                  score := getProp (js "score") raw ≫= asNumber;
                  meaning := getProp (js "meaning") raw ≫= asString;
                  example := getProp (js "example") raw ≫= asString;
                  synonyms := normalizeSynonyms (getProp (js "synonyms") raw);
                  occurrences := None;
                  songTitle := None;
                  songArtist := None |}
      | _ => None
      end
  | _ => None
  end.

(** The constant [normalized]: the candidate list before deduplication. *)
Definition normalized (parsed : list json) (minLength : number) : list VocabularyEntry :=
  List.filter (fun e => num_ge (ofNat (length (word e))) minLength)
              (omap normalize parsed).

Section Parser.

Context `{CaseMapping}.

Definition key (e : VocabularyEntry) : jsstring := toLowerCase (word e).

(** The loop that fills the [Map] [countByWord]. *)
Definition countByWord (l : list VocabularyEntry) : gmap jsstring nat :=
  fold_left (fun m e => <[key e := default 0 (m !! key e) + 1]> m) l ∅.

(** The [filter] over the [Set] [seen]. *)
Fixpoint dedupe (seen : gset jsstring) (l : list VocabularyEntry)
  : list VocabularyEntry :=
  match l with
  | [] => []
  | e :: r =>
      if decide (key e ∈ seen) then dedupe seen r
      else e :: dedupe ({[key e]} ∪ seen) r
  end.

(** What [parseVocabularyResponse] returns once [normalized] is known. *)
Definition dedupeAndCount (l : list VocabularyEntry) (maxWords : number)
  : list VocabularyEntry :=
  slice0 maxWords
    (List.map (fun e => withOccurrences e (ofNat (default 1 (countByWord l !! key e))))
              (dedupe ∅ l)).

Definition parseVocabularyResponse (text : jsstring) (maxWords minLength : number)
  : result (list VocabularyEntry) :=
  let trimmed := trim text in
  match Json.parse (jsonStr trimmed) with
  | None => Throw InvalidJson
  | Some (JArray parsed) => Ok (dedupeAndCount (normalized parsed minLength) maxWords)
  | Some _ => Ok []
  end.

(** The candidate list of a text: [normalized], before deduplication. *)
Definition candidates (text : jsstring) (minLength : number) : list VocabularyEntry :=
  match Json.parse (jsonStr (trim text)) with
  | Some (JArray parsed) => normalized parsed minLength
  | _ => []
  end.

(** Number of entries of [l] whose case-folded word is [k]. *)
Definition matches (k : jsstring) (l : list VocabularyEntry) : nat :=
  length (List.filter (fun c => bool_decide (key c = k)) l).

(** The first entry of [l] whose case-folded word is [k]. *)
Definition firstWith (k : jsstring) (l : list VocabularyEntry) : option VocabularyEntry :=
  List.find (fun c => bool_decide (key c = k)) l.

End Parser.

(* ===================================================================== *)
(** ** src/vocabulary.ts: the settings resolver *)
(* ===================================================================== *)

Definition rowToOptions (row : UserVocabularySettingsRow) : VocabularyOptions :=
  let lang := if bool_decide (row_language row = js "ko") then ko else en in
  let lv :=
    if bool_decide (row_level row = js "beginner") then beginner
    else if bool_decide (row_level row = js "advanced") then advanced
    else intermediate in
  let maxWords' := max_words row in
  let minLength' := min_length row in
  {| language := lang;
     level := Some lv;
     maxWords :=
       if isFinite maxWords' && num_ge maxWords' (ofZ 1) && num_le maxWords' (ofZ 200)
       then Some maxWords'
       else maxWords DEFAULT_VOCABULARY_OPTIONS;
     minLength :=
       if isFinite minLength' && num_ge minLength' (ofZ 1) && num_le minLength' (ofZ 20)
       then Some minLength'
       else minLength DEFAULT_VOCABULARY_OPTIONS |}.

(** [getSettings] is the injected lookup: it resolves to a row or to [null],
    or it rejects. *)
Definition getVocabularyOptionsForUser
    (userId : jsstring)
    (getSettings : jsstring -> result (option UserVocabularySettingsRow))
  : result VocabularyOptions :=
  row ← getSettings userId;
  mret (match row with
        | Some r => rowToOptions r
        | None => DEFAULT_VOCABULARY_OPTIONS
        end).

(* ===================================================================== *)
(** ** src/vocabulary.ts: the fallback extractor *)
(* ===================================================================== *)

(** The class [\w]. *)
Definition isWordChar (c : N) : bool :=
  (Json.isDigit c || ((65 <=? c) && (c <=? 90)) || ((97 <=? c) && (c <=? 122))
   || (c =? 95))%N.

(** [.replace(/[^\w\s]/g, ' ')] *)
Definition replaceNonWord (s : jsstring) : jsstring :=
  List.map (fun c => if negb (isWordChar c || isWhiteSpace c) then 32%N else c) s.

(** [.split(/\s+/)]: [cur] is the piece being read, in reverse, and [inWs]
    tells that the previous code unit was white space. *)
Fixpoint splitWs (s cur : jsstring) (inWs : bool) : list jsstring :=
  match s with
  | [] => [rev cur]
  | c :: r =>
      if isWhiteSpace c then
        if inWs then splitWs r [] true else rev cur :: splitWs r [] true
      else splitWs r (c :: cur) false
  end.

(** [[...new Set(l)]]: the elements in the order of their first insertion. *)
Fixpoint setOrder (seen : gset jsstring) (l : list jsstring) : list jsstring :=
  match l with
  | [] => []
  | w :: r =>
      if decide (w ∈ seen) then setOrder seen r
      else w :: setOrder ({[w]} ∪ seen) r
  end.

Definition stops : list jsstring :=
  List.map js
    ["the"; "a"; "an"; "is"; "are"; "was"; "were"; "be"; "been"; "being"; "have";
     "has"; "had"; "do"; "does"; "did"; "will"; "would"; "could"; "should"; "may";
     "might"; "must"; "shall"; "can"; "need"; "and"; "or"; "but"; "if"; "then";
     "when"; "where"; "what"; "which"; "who"; "whom"; "whose"; "why"; "how"; "this";
     "that"; "these"; "those"; "it"; "its"; "in"; "on"; "at"; "to"; "for"; "of";
     "with"; "by"; "from"; "up"; "down"; "over"; "under"; "again"; "further"; "then";
     "once"; "here"; "there"; "why"; "how"; "all"; "any"; "both"; "each"; "few";
     "more"; "most"; "other"; "some"; "such"; "no"; "nor"; "not"; "only"; "own";
     "same"; "so"; "than"; "too"; "very"; "just"; "im"; "i"; "you"; "we"; "they";
     "my"; "your"; "our"; "their"]%string.

Section Fallback.

Context `{CaseMapping}.

Definition isStopWord (w : jsstring) : bool :=
  bool_decide (toLowerCase w ∈ stops).

Definition fallbackEntry (w : jsstring) : VocabularyEntry :=
  {| word := w;
     score := Some (ofZ 5);
     meaning := Some (js "단어 정의");
     example := Some (js "가사에서 추출된 단어");
     synonyms := Some [];
     occurrences := Some (ofZ 1);
     songTitle := None;
     songArtist := None |}.

Definition getFallbackVocabulary (lyrics : jsstring) (maxWords minLength : number)
  : list VocabularyEntry :=
  let words :=
    List.filter (fun w => negb (isStopWord w))
      (List.filter (fun w => num_ge (ofNat (length w)) minLength)
         (splitWs (replaceNonWord (toLowerCase lyrics)) [] false)) in
  let uniqueWords := slice0 maxWords (setOrder ∅ words) in
  List.map fallbackEntry uniqueWords.

End Fallback.

(* ===================================================================== *)
(** ** src/lib/gemini.ts: the model client, as the orchestrator sees it *)
(* ===================================================================== *)

Module Gemini.

Record GeminiEnv := {
  SECRET_GEMINI_API_KEY : option jsstring;
  GEMINI_MODEL : option jsstring;
  GEMINI_BASE_URL : option jsstring
}.

(** An element accepted by [itemSchema]. *)
Record Item := {
  word : jsstring;
  score : option number;
  meaning : option jsstring;
  example : option jsstring;
  synonyms : option (list jsstring)
}.

(** An object accepted by [listSchema]. *)
Record ItemList := { items : list Item }.

(** The two calls are remote: a client is whatever they answer.
    [generateText] is an asynchronous generator: it yields chunks and then
    either finishes ([None]) or throws. *)
Record Client := {
  generateText : jsstring -> GeminiEnv -> list jsstring * option error;
  generateStructured : jsstring -> GeminiEnv -> result ItemList
}.

End Gemini.

(* ===================================================================== *)
(** ** src/vocabulary.ts: prompt builder and orchestrator *)
(* ===================================================================== *)

(** [Number.prototype.toString], used by the template literals of the prompt. *)
Class NumberFormat := { numberToString : number -> jsstring }.

Definition toGeminiEnv (env : VocabularyEnv) : Gemini.GeminiEnv :=
  {| Gemini.SECRET_GEMINI_API_KEY := GEMINI_API_KEY env;
     Gemini.GEMINI_MODEL := GEMINI_MODEL env;
     Gemini.GEMINI_BASE_URL := GEMINI_BASE_URL env |}.

Definition getLevelInstruction (lv : VocabularyLevel) : jsstring :=
  match lv with
  | beginner =>
      js "Target level: beginner. Prefer high-frequency, essential words. Give short, simple definitions and easy example phrases."
  | advanced =>
      js "Target level: advanced. Include less common words, idioms, or phrasal verbs where they appear. Definitions can be more precise or nuanced."
  | intermediate =>
      js "Target level: intermediate. Mix common and some less common words. Use clear definitions and example phrases from the lyrics."
  end.

(** [lines.join(sep)] *)
Fixpoint join (sep : jsstring) (lines : list jsstring) : jsstring :=
  match lines with
  | [] => []
  | [l] => l
  | l :: r => l ++ sep ++ join sep r
  end.

Section Orchestrator.

Context `{CaseMapping} `{NumberFormat}.

Definition buildVocabularyPrompt (lyrics : jsstring) (options : VocabularyOptions)
  : jsstring :=
  let maxWords' := default (ofZ 30) (maxWords options) in
  let minLength' := default (ofZ 2) (minLength options) in
  let level' := default intermediate (level options) in
  let langLabel :=
    match language options with en => js "English" | ko => js "Korean" end in
  let levelInstruction := getLevelInstruction level' in
  join [10%N]
    [ js "You are a vocabulary tutor. Below are song lyrics in plain text.";
      [];
      levelInstruction;
      [];
      js "Tasks (do all yourself):";
      js "1. Tokenize: split the text into words. For " ++ langLabel
        ++ js ", normalize appropriately (e.g. lowercase for English, strip punctuation).";
      js "2. Filter: ignore words shorter than " ++ numberToString minLength'
        ++ js " characters and common stop words (articles, pronouns, conjunctions, etc.).";
      js "3. Select: choose at most " ++ numberToString maxWords'
        ++ js " words that are most useful for vocabulary memorization at the target level above.";
      [];
      jsq "4. Synonyms: for each selected word, add 'synonyms' (array of 1–5 synonym words in the same language, useful for vocabulary learning).";
      [];
      jsq "Output: Return a single JSON array. Each element must have: 'word' (string), 'score' (number 1–10, importance), 'meaning' (short definition in Korean only), 'example' (short phrase from or inspired by the lyrics), 'synonyms' (array of strings). No markdown, no explanation—only the JSON array.";
      [];
      js "--- Lyrics ---";
      lyrics ].

(** The [filter], [map] and [slice] of the structured-output attempt. *)
Definition structuredEntries (l : list Gemini.Item) (maxWords minLength : number)
  : list VocabularyEntry :=
  slice0 maxWords
    (List.map
       (fun e =>
          {| word := trim (Gemini.word e);
             score := Gemini.score e;
             meaning := Gemini.meaning e;
             example := Gemini.example e;
             synonyms := Gemini.synonyms e;
             occurrences := Some (ofZ 1);
             songTitle := None;
             songArtist := None |})
       (List.filter
          (fun e => nonEmpty (Gemini.word e)
                    && num_ge (ofNat (length (Gemini.word e))) minLength)
          l)).

(** A call of the model client. *)
Inductive call :=
| StreamCall (prompt : jsstring)
| StructuredCall (prompt : jsstring).

(** Approach 1: the streamed text, fully drained, then parsed. *)
Definition streamingAttempt (client : Gemini.Client) (prompt : jsstring)
    (geminiEnv : Gemini.GeminiEnv) (maxWords minLength : number)
  : result (list VocabularyEntry) :=
  match Gemini.generateText client prompt geminiEnv with
  | (chunks, None) => parseVocabularyResponse (concat chunks) maxWords minLength
  | (_, Some e) => Throw e
  end.

(** The result comes with the calls made to the model client, in order. *)
Definition createVocabularyFromLyrics (lyrics : jsstring) (options : VocabularyOptions)
    (env : VocabularyEnv) (client : Gemini.Client)
  : list call * result (list VocabularyEntry) :=
  match GEMINI_API_KEY env with
  | None | Some [] => ([], Throw MissingApiKey)
  | Some _ =>
      let maxWords' := default (ofZ 30) (maxWords options) in
      let minLength' := default (ofZ 2) (minLength options) in
      let prompt := buildVocabularyPrompt lyrics options in
      let geminiEnv := toGeminiEnv env in
      match streamingAttempt client prompt geminiEnv maxWords' minLength' with
      | Ok entries => ([StreamCall prompt], Ok entries)
      | Throw _ =>
          match Gemini.generateStructured client prompt geminiEnv with
          | Ok res =>
              ([StreamCall prompt; StructuredCall prompt],
               Ok (structuredEntries (Gemini.items res) maxWords' minLength'))
          | Throw _ =>
              ([StreamCall prompt; StructuredCall prompt],
               Ok (getFallbackVocabulary lyrics maxWords' minLength'))
          end
      end
  end.

End Orchestrator.

(* ===================================================================== *)
(** ** src/lib/genius.ts: [extractLyricsFromHtml] *)
(* ===================================================================== *)

Module Genius.

(** [p] at the head of [s], ignoring the case of ASCII letters (the [i]
    flag); [p] is written in lower case. *)
Fixpoint startsWithCI (p s : jsstring) : bool :=
  match p, s with
  | [], _ => true
  | a :: p', b :: s' => (a =? asciiLower b)%N && startsWithCI p' s'
  | _ :: _, [] => false
  end.

(** Index of the first occurrence of [p] in [s]. *)
Fixpoint findSub (p s : jsstring) : option nat :=
  if startsWith p s then Some 0
  else match s with
       | [] => None
       | _ :: r => S <$> findSub p r
       end.

(** One match of
    [/<div[^>]*data-lyrics-container="true"[^>]*>([\s\S]*?)<\/div>/] at the
    head of [s]: the captured group and the text after the match.  The
    opening tag ends at the first [>], and the attribute must occur before
    it; the group ends at the first closing tag. *)
Definition matchContainer (s : jsstring) : option (jsstring * jsstring) :=
  if startsWith (js "<div") s then
    let rest := drop 4 s in
    q ← indexOf 62%N rest;
    _ ← findSub (jsq "data-lyrics-container='true'") (take q rest);
    let body := drop (q + 1) rest in
    k ← findSub (js "</div>") body;
    Some (take k body, drop (k + 6) body)
  else None.

(** [html.matchAll(lyricsContainerRegex)], as the list of captured groups. *)
Fixpoint matchAll (fuel : nat) (s : jsstring) : list jsstring :=
  match fuel with
  | O => []
  | S fuel =>
      match s with
      | [] => []
      | _ :: r =>
          match matchContainer s with
          | Some (group, rest) => group :: matchAll fuel rest
          | None => matchAll fuel r
          end
      end
  end.

(** [s.replace(re, f)] with the [g] flag: [m] recognises one match of [re]
    at the head of its argument and gives the replacement, which may throw,
    and the text after the match. *)
Fixpoint replaceAll (fuel : nat) (m : jsstring -> option (result jsstring * jsstring))
    (s : jsstring) : result jsstring :=
  match fuel with
  | O => Ok s
  | S fuel =>
      match s with
      | [] => Ok []
      | c :: r =>
          match m s with
          | Some (replacement, rest) =>
              x ← replacement; y ← replaceAll fuel m rest; mret (x ++ y)
          | None => y ← replaceAll fuel m r; mret (c :: y)
          end
      end
  end.

Definition replace (m : jsstring -> option (result jsstring * jsstring))
    (s : jsstring) : result jsstring :=
  replaceAll (S (length s)) m s.

(** [/<br\s*\/?>/i] *)
Definition brTag (s : jsstring) : option (result jsstring * jsstring) :=
  if startsWithCI (js "<br") s then
    match trimStart (drop 3 s) with
    | c :: r =>
        if (c =? 62)%N then Some (Ok [10%N], r)
        else if (c =? 47)%N then
          match r with
          | d :: r' => if (d =? 62)%N then Some (Ok [10%N], r') else None
          | [] => None
          end
        else None
    | [] => None
    end
  else None.

(** [/<[^>]*>/] *)
Definition anyTag (s : jsstring) : option (result jsstring * jsstring) :=
  match s with
  | c :: r =>
      if (c =? 60)%N then q ← indexOf 62%N r; Some (Ok [], drop (q + 1) r)
      else None
  | [] => None
  end.

(** [String.fromCodePoint] *)
Definition fromCodePoint (cp : N) : result jsstring :=
  if (cp <=? 1114111)%N then Ok (Utf.utf16 cp) else Throw RangeError.

Fixpoint spanHex (s : jsstring) : list N * jsstring :=
  match s with
  | c :: r =>
      match Json.hexValue c with
      | Some v => let '(d, t) := spanHex r in (v :: d, t)
      | None => ([], s)
      end
  | [] => ([], [])
  end.

Definition radixValue (radix : N) (digits : list N) : N :=
  fold_left (fun acc d => (acc * radix + d)%N) digits 0%N.

(** [/&#x([0-9a-f]+);/i] with [String.fromCodePoint(parseInt(code, 16))] *)
Definition hexReference (s : jsstring) : option (result jsstring * jsstring) :=
  if startsWithCI (js "&#x") s then
    match spanHex (drop 3 s) with
    | (d :: ds, c :: r) =>
        if (c =? 59)%N then Some (fromCodePoint (radixValue 16 (d :: ds)), r)
        else None
    | _ => None
    end
  else None.

(** [/&#(\d+);/] with [String.fromCodePoint(Number(code))] *)
Definition decimalReference (s : jsstring) : option (result jsstring * jsstring) :=
  if startsWith (js "&#") s then
    match Json.spanDigits (drop 2 s) with
    | (d :: ds, c :: r) =>
        if (c =? 59)%N
        then Some (fromCodePoint (radixValue 10 (List.map (fun x => x - 48)%N (d :: ds))), r)
        else None
    | _ => None
    end
  else None.

(** A pattern without operators, under the [i] flag, and its replacement. *)
Definition literal (p replacement : jsstring) (s : jsstring)
  : option (result jsstring * jsstring) :=
  if startsWithCI p s then Some (Ok replacement, drop (length p) s) else None.

(** [/&(apos|#x27|#39);/i] *)
Definition aposReference (s : jsstring) : option (result jsstring * jsstring) :=
  if startsWithCI (js "&apos;") s then Some (Ok [39%N], drop 6 s)
  else if startsWithCI (js "&#x27;") s then Some (Ok [39%N], drop 6 s)
  else if startsWithCI (js "&#39;") s then Some (Ok [39%N], drop 5 s)
  else None.

(** The body of the loop over the matches: [None] when the trimmed content
    is empty and nothing is pushed. *)
Definition lyricsPart (group : jsstring) : result (option jsstring) :=
  content ← replace brTag group;
  content ← replace anyTag content;
  content ← replace hexReference content;
  content ← replace decimalReference content;
  content ← replace (literal (js "&amp;") [38%N]) content;
  content ← replace (literal (js "&lt;") [60%N]) content;
  content ← replace (literal (js "&gt;") [62%N]) content;
  content ← replace (literal (js "&quot;") [34%N]) content;
  content ← replace aposReference content;
  let content := trim content in
  mret (if nonEmpty content then Some content else None).

Fixpoint lyricsParts (groups : list jsstring) : result (list jsstring) :=
  match groups with
  | [] => Ok []
  | g :: r =>
      part ← lyricsPart g;
      parts ← lyricsParts r;
      mret (match part with Some c => c :: parts | None => parts end)
  end.

Definition extractLyricsFromHtml (html : jsstring) : result jsstring :=
  parts ← lyricsParts (matchAll (length html) html);
  match parts with
  | [] => Throw NoLyrics
  | _ => Ok (join [10%N; 10%N] parts)
  end.

End Genius.

(* ===================================================================== *)
(** ** The store: tables [user_words] and [word_synonyms] *)
(* ===================================================================== *)

Module Store.

(** A row of [user_words] ([created_at] is left out: nothing reads it
    here).  [count] is an INTEGER column; it holds whatever number the
    statements compute, as it does for the integers the callers pass. *)
Record UserWord := {
  id : jsstring;
  user_id : jsstring;
  word : jsstring;
  meaning : option jsstring;
  count : number;
  song_title : option jsstring;
  song_artist : option jsstring
}.

(** [word_synonyms] holds the pairs (user_word_id, synonym), in insertion
    order; [next] counts the identifiers drawn so far. *)
Record Db := {
  user_words : list UserWord;
  word_synonyms : list (jsstring * jsstring);
  next : nat
}.

(** The element type of both upserts; [settings.ts] has no song fields. *)
Record UpsertUserWordEntry := {
  e_word : jsstring;
  e_meaning : option jsstring;
  e_occurrences : option number;
  e_songTitle : option jsstring;
  e_songArtist : option jsstring
}.

Definition hasKey (userId w : jsstring) (r : UserWord) : bool :=
  bool_decide (user_id r = userId) && bool_decide (word r = w).

(** [SELECT ... FROM user_words WHERE user_id = ? AND word = ?] *)
Definition selectUserWord (db : Db) (userId w : jsstring) : list UserWord :=
  List.filter (hasKey userId w) (user_words db).

(** [COALESCE(a, b)] *)
Definition coalesce {A} (a b : option A) : option A :=
  match a with Some _ => a | None => b end.

(** What [UPDATE user_words SET count = count + ?, meaning = COALESCE(?, meaning),
    song_title = COALESCE(?, song_title), song_artist = COALESCE(?, song_artist)
    WHERE user_id = ? AND word = ?] does to one row. *)
Definition bumpRow (occ : number) (m t a : option jsstring) (userId w : jsstring)
    (r : UserWord) : UserWord :=
  if hasKey userId w r then
    {| id := id r; user_id := user_id r; word := word r;
       meaning := coalesce m (meaning r);
       count := num_add (count r) occ;
       song_title := coalesce t (song_title r);
       song_artist := coalesce a (song_artist r) |}
  else r.

Definition updateUserWordCount (occ : number) (m t a : option jsstring)
    (userId w : jsstring) (db : Db) : Db :=
  {| user_words := List.map (bumpRow occ m t a userId w) (user_words db);
     word_synonyms := word_synonyms db;
     next := next db |}.

(** [INSERT INTO user_words ...]: refused by [UNIQUE (user_id, word)].
    Identifiers come from [randomUUID] and are taken to be new, so the
    primary key is not checked. *)
Definition insertUserWord (r : UserWord) (db : Db) : result Db :=
  match selectUserWord db (user_id r) (word r) with
  | [] => Ok {| user_words := user_words db ++ [r];
                word_synonyms := word_synonyms db;
                next := next db |}
  | _ => Throw ConstraintViolation
  end.

(** [INSERT OR IGNORE INTO word_synonyms (user_word_id, synonym)], also
    [INSERT ... ON CONFLICT (user_word_id, synonym) DO NOTHING] for one
    row. *)
Definition insertSynonymOrIgnore (userWordId synonym : jsstring) (db : Db) : Db :=
  if bool_decide ((userWordId, synonym) ∈ word_synonyms db) then db
  else {| user_words := user_words db;
          word_synonyms := word_synonyms db ++ [(userWordId, synonym)];
          next := next db |}.

(** The count added for an entry:
    [typeof e.occurrences === "number" && e.occurrences >= 1 ? e.occurrences : 1] *)
Definition occurrencesOf (e : UpsertUserWordEntry) : number :=
  match e_occurrences e with
  | Some n => if num_ge n (ofZ 1) then n else ofZ 1
  | None => ofZ 1
  end.

Section Upsert.

(** The identifiers drawn by [generateUUID] / [gen_random_uuid()], in the
    order of the draws. *)
Variable uuid : nat -> jsstring.

Definition drawId (db : Db) : jsstring * Db :=
  (uuid (next db),
   {| user_words := user_words db;
      word_synonyms := word_synonyms db;
      next := S (next db) |}).

(** src/db/d1.ts *)
Fixpoint d1UpsertUserWords (db : Db) (userId : jsstring)
    (entries : list UpsertUserWordEntry)
  : result (Db * list (jsstring * jsstring)) :=
  match entries with
  | [] => Ok (db, [])
  | e :: rest =>
      let w := trim (e_word e) in
      if negb (nonEmpty w) then d1UpsertUserWords db userId rest
      else
        let occurrences := occurrencesOf e in
        let existing := head (selectUserWord db userId w) in
        match existing with
        | Some (Build_UserWord (c :: i) _ _ _ _ _ _) =>
            let db1 :=
              updateUserWordCount occurrences (e_meaning e) (e_songTitle e)
                (e_songArtist e) userId w db in
            '(db2, res) ← d1UpsertUserWords db1 userId rest;
            mret (db2, (w, c :: i) :: res)
        | _ =>
            let '(newId, db0) := drawId db in
            db1 ← insertUserWord
                    {| id := newId; user_id := userId; word := w;
                       meaning := e_meaning e; count := occurrences;
                       song_title := e_songTitle e;
                       song_artist := e_songArtist e |} db0;
            '(db2, res) ← d1UpsertUserWords db1 userId rest;
            mret (db2, (w, newId) :: res)
        end
  end.

(** src/db/d1.ts: the batch of one [INSERT OR IGNORE] per synonym. *)
Definition d1InsertWordSynonyms (db : Db) (userWordId : jsstring)
    (synonyms : list jsstring) : Db :=
  let l := List.filter nonEmpty (List.map trim synonyms) in
  fold_left (fun d s => insertSynonymOrIgnore userWordId s d) l db.

(** [UPSERT_USER_WORD_SQL] of src/db/settings.ts, as the store runs it:
    [INSERT ... ON CONFLICT (user_id, word) DO UPDATE SET
     count = user_words.count + EXCLUDED.count,
     meaning = COALESCE(EXCLUDED.meaning, user_words.meaning) RETURNING id]. *)
Definition runUpsertUserWord (db : Db) (userId w : jsstring)
    (m : option jsstring) (occ : number) : Db * list jsstring :=
  match selectUserWord db userId w with
  | r :: _ =>
      (updateUserWordCount occ m None None userId w db, [id r])
  | [] =>
      let '(newId, db0) := drawId db in
      ({| user_words :=
            user_words db0
              ++ [{| id := newId; user_id := userId; word := w; meaning := m;
                     count := occ; song_title := None; song_artist := None |}];
          word_synonyms := word_synonyms db0;
          next := next db0 |},
       [newId])
  end.

(** src/db/settings.ts *)
Fixpoint upsertUserWords (db : Db) (userId : jsstring)
    (entries : list UpsertUserWordEntry) : Db * list (jsstring * jsstring) :=
  match entries with
  | [] => (db, [])
  | e :: rest =>
      let w := trim (e_word e) in
      if negb (nonEmpty w) then upsertUserWords db userId rest
      else
        let occurrences := occurrencesOf e in
        let '(db1, rows) := runUpsertUserWord db userId w (e_meaning e) occurrences in
        let '(db2, res) := upsertUserWords db1 userId rest in
        match rows with
        | (c :: i) :: _ => (db2, (w, c :: i) :: res)
        | _ => (db2, res)
        end
  end.

(** src/db/settings.ts: [INSERT_WORD_SYNONYM_SQL] inserts the unnested list
    row by row, skipping the pairs that are present. *)
Definition insertWordSynonyms (db : Db) (userWordId : jsstring)
    (synonyms : list jsstring) : Db :=
  let l := List.filter nonEmpty (List.map trim synonyms) in
  match l with
  | [] => db
  | _ => fold_left (fun d s => insertSynonymOrIgnore userWordId s d) l db
  end.

End Upsert.

End Store.

(* ===================================================================== *)
(** ** Inputs and notions used to state the properties *)
(* ===================================================================== *)

(** The model output of the scenario with a repeated word. *)
Definition shineText : jsstring :=
  jsq "[{'word':'shine','score':8},{'word':'Shine','score':5},{'word':'forever','score':7}]".

Definition plainEntry (w : jsstring) (sc occ : Z) : VocabularyEntry :=
  {| word := w; score := Some (ofZ sc); meaning := None; example := None;
     synonyms := None; occurrences := Some (ofZ occ);
     songTitle := None; songArtist := None |}.

Definition shineEntries : list VocabularyEntry :=
  [plainEntry (js "shine") 8 2; plainEntry (js "forever") 7 1].

(** Nesting depth of [s] after index [i], counted from [firstBracket]: opening
    minus closing brackets in [s[firstBracket..i]]. *)
Definition balance (s : jsstring) : Z :=
  Z.of_nat (count_occ N.eq_dec s 91%N) - Z.of_nat (count_occ N.eq_dec s 93%N).

Definition depthAfter (s : jsstring) (firstBracket i : nat) : Z :=
  balance (substring firstBracket (i + 1) s).

(** [lo <= n <= hi] for a finite [n]. *)
Definition inRange (lo hi : Z) (n : number) : Prop :=
  match n with
  | Fin q => (inject_Z lo <= q)%Q /\ (q <= inject_Z hi)%Q
  | _ => False
  end.

(** A settings row with an unknown level and an oversized word limit. *)
Definition sampleRow : UserVocabularySettingsRow :=
  {| row_language := js "ko"; row_level := js "expert";
     max_words := ofZ 500; min_length := ofZ 3 |}.

(** [!env.GEMINI_API_KEY] *)
Definition keyMissing (env : VocabularyEnv) : Prop :=
  GEMINI_API_KEY env = None \/ GEMINI_API_KEY env = Some [].

(** A client whose streaming call throws and whose structured call answers
    [l]. *)
Definition structuredOnly (l : list Gemini.Item) : Gemini.Client :=
  {| Gemini.generateText := fun _ _ => ([], Some ModelError);
     Gemini.generateStructured := fun _ _ => Ok {| Gemini.items := l |} |}.

Definition paddedItem : Gemini.Item :=
  {| Gemini.word := js "  a  "; Gemini.score := None; Gemini.meaning := None;
     Gemini.example := None; Gemini.synonyms := None |}.

Definition sampleEnv : VocabularyEnv :=
  {| GEMINI_API_KEY := Some (js "secret"); GEMINI_MODEL := None;
     GEMINI_BASE_URL := None |}.

(** A page with one lyrics region whose text is [&amp;lt;]. *)
Definition escapedPage : jsstring :=
  jsq "<div data-lyrics-container='true'>&amp;lt;</div>".

(** Equality of numbers as values. *)
Definition num_eq (a b : number) : Prop :=
  match a, b with
  | Fin x, Fin y => (x == y)%Q
  | NaN, NaN | PosInf, PosInf | NegInf, NegInf => True
  | _, _ => False
  end.

Module StoreSpec.

Import Store.

Definition rowKey (r : UserWord) : jsstring * jsstring := (user_id r, word r).

(** The constraints of the schema: [UNIQUE (user_id, word)] on [user_words],
    [UNIQUE (user_word_id, synonym)] on [word_synonyms]; identifiers are
    UUIDs, so never the empty string. *)
Definition wellFormed (db : Db) : Prop :=
  NoDup (List.map rowKey (user_words db))
  /\ Forall (fun r => id r <> []) (user_words db)
  /\ NoDup (word_synonyms db).









(** Sample data: identifiers u, uu, uuu, ...; a store with one word; a call
    with a repeated word. *)
Definition sampleUuid (n : nat) : jsstring := replicate (S n) 117%N.

Definition sampleDb : Db :=
  {| user_words :=
       [{| id := js "w0"; user_id := js "u1"; word := js "hello"; meaning := None;
           count := ofZ 4; song_title := None; song_artist := None |}];
     word_synonyms := [(js "w0", js "hi")];
     next := 0 |}.

Definition sampleEntry (w : string) (occ : Z) : UpsertUserWordEntry :=
  {| e_word := js w; e_meaning := None; e_occurrences := Some (ofZ occ);
     e_songTitle := None; e_songArtist := None |}.

Definition sampleEntries : list UpsertUserWordEntry :=
  [sampleEntry "hello" 2; sampleEntry "world" 3; sampleEntry " hello " 1;
   sampleEntry "   " 7].

End StoreSpec.


(** The words of a parser result. *)
Definition wordsOf (r : result (list VocabularyEntry)) : result (list jsstring) :=
  l ← r; mret (List.map word l).

(* ===================================================================== *)
(** ** Further notions and functions *)
(* ===================================================================== *)

(** A bracket group: a text that starts with [[] and whose nesting depth is
    back to zero at its end and nowhere before. *)
Definition bracketGroup (g : jsstring) : Prop :=
  head g = Some 91%N
  /\ balance g = 0%Z
  /\ forall k, 0 < k < length g -> balance (take k g) <> 0%Z.

(** An answer wrapped in prose, with a second bracket after the array. *)
Definition proseBefore : jsstring := js "Here you are: ".
Definition groupText : jsstring := jsq "[{'word':'glow','synonyms':['shine']}]".
Definition proseAfter : jsstring := js " (see [1])".

(** Number of entries of [l] whose case-folded word is not in [seen]. *)
Definition unseen `{CaseMapping} (seen : gset jsstring) (l : list VocabularyEntry) : nat :=
  length (List.filter (fun c => negb (bool_decide (key c ∈ seen))) l).

(** A test for [bracketGroup]. *)
Definition bracketGroupb (g : jsstring) : bool :=
  bool_decide (head g = Some 91%N)
  && (balance g =? 0)%Z
  && forallb (fun k => negb (balance (take k g) =? 0)%Z) (seq 1 (length g - 1)).

(** src/vocabulary.ts: what [saveVocabularyList] receives. *)
Record SaveVocabularyPayload := {
  payload_userId : jsstring;
  payload_entries : list VocabularyEntry;
  payload_title : option jsstring
}.

(** src/vocabulary.ts: [VocabularyEnvWithDb].  The two optional functions are
    injected; they work on a store of type [S].  The lookup resolves to a row
    or to [null], or rejects; the save returns the store it leaves and the
    exception it threw, if any. *)
Record VocabularyEnvWithDb (S : Type) := {
  env_base : VocabularyEnv;
  getVocabularySettings :
    option (jsstring -> S -> result (option UserVocabularySettingsRow));
  saveVocabularyList : option (SaveVocabularyPayload -> S -> S * option error)
}.
Arguments env_base {S} _.
Arguments getVocabularySettings {S} _.
Arguments saveVocabularyList {S} _.

Section ForUser.

Context `{CaseMapping} `{NumberFormat} {S : Type}.

(** src/vocabulary.ts: [createVocabularyFromLyricsForUser]; [title] is
    [meta?.title].  The result comes with the calls made to the model client
    and the store that is left. *)
Definition createVocabularyFromLyricsForUser (lyrics userId : jsstring)
    (env : VocabularyEnvWithDb S) (client : Gemini.Client) (title : option jsstring)
    (s : S) : list call * S * result (list VocabularyEntry) :=
  let getSettings := default (fun _ _ => Ok None) (getVocabularySettings env) in
  match getVocabularyOptionsForUser userId (fun u => getSettings u s) with
  | Throw e => ([], s, Throw e)
  | Ok options =>
      match createVocabularyFromLyrics lyrics options (env_base env) client with
      | (calls, Throw e) => (calls, s, Throw e)
      | (calls, Ok entries) =>
          match saveVocabularyList env with
          | None => (calls, s, Ok entries)
          | Some save =>
              match save {| payload_userId := userId;
                            payload_entries := entries;
                            payload_title := title |} s with
              | (s', None) => (calls, s', Ok entries)
              | (s', Some e) => (calls, s', Throw e)
              end
          end
      end
  end.

End ForUser.

(** A store that keeps the payloads saved, and an environment over it whose
    lookup finds [sampleRow]. *)
Definition savingEnv : VocabularyEnvWithDb (list SaveVocabularyPayload) :=
  {| env_base := sampleEnv;
     getVocabularySettings := Some (fun _ _ => Ok (Some sampleRow));
     saveVocabularyList := Some (fun p s => (s ++ [p], None)) |}.

(** A client whose streaming call yields the scenario text in two chunks. *)
Definition shineClient : Gemini.Client :=
  {| Gemini.generateText := fun _ _ => ([take 20 shineText; drop 20 shineText], None);
     Gemini.generateStructured := fun _ _ => Throw ModelError |}.

(** The opening tag of a lyrics region, and the closing tag. *)
Definition containerOpen : jsstring := jsq "<div data-lyrics-container='true'>".
Definition divClose : jsstring := js "</div>".

(** Text with neither markup nor character references. *)
Definition isPlain (c : N) : Prop := c <> 60%N /\ c <> 38%N.

(** An entry with a count that is at least 1. *)
Definition counted (e : VocabularyEntry) : Prop :=
  exists n, occurrences e = Some (ofNat n) /\ 1 <= n.

(** A pattern that can only match at a [<] or a [&]. *)
Definition guarded (m : jsstring -> option (result jsstring * jsstring)) : Prop :=
  forall c r, isPlain c -> m (c :: r) = None.

Module StoreMore.

Import StoreSpec.






(** A row of [vocabulary_lists] ([created_at] left out). *)
Record ListRow := {
  list_id : jsstring;
  list_user_id : jsstring;
  list_title : option jsstring;
  list_entries : jsstring
}.

(** The store with its snapshots. *)
Record ListsDb := {
  words : Store.Db;
  vocabulary_lists : list ListRow
}.

(** The entry handed to the word upsert by [d1SaveVocabularyList]. *)
Definition toUpsertEntry (e : VocabularyEntry) : Store.UpsertUserWordEntry :=
  {| Store.e_word := trim (word e);
     Store.e_meaning := meaning e;
     Store.e_occurrences := occurrences e;
     Store.e_songTitle := songTitle e;
     Store.e_songArtist := songArtist e |}.

Section Save.

Variable uuid : nat -> jsstring.

(** [JSON.stringify] on the entry array. *)
Variable stringify : list VocabularyEntry -> jsstring.

(** The loop of [d1SaveVocabularyList] that stores the synonyms of one entry:
    nothing for an entry without synonyms or whose word has no identifier. *)
Definition saveSynonyms (idByWord : gmap jsstring jsstring) (d : Store.Db) (e : VocabularyEntry)
  : Store.Db :=
  match synonyms e with
  | Some (s :: ss) =>
      match idByWord !! trim (word e) with
      | Some (c :: i) => Store.d1InsertWordSynonyms d (c :: i) (s :: ss)
      | _ => d
      end
  | _ => d
  end.

(** src/db/d1.ts: [d1SaveVocabularyList], on the entries the route passes
    (objects with a string [word], for which the guards on the shape of an
    element hold).  When a statement throws, the writes made so far stay in
    the store; the model only tells that it threw. *)
Definition d1SaveVocabularyList (db : ListsDb) (userId : jsstring)
    (entries : list VocabularyEntry) (title : option jsstring) : result ListsDb :=
  let '(newId, w0) := Store.drawId uuid (words db) in
  let snapshot :=
    {| list_id := newId; list_user_id := userId; list_title := title;
       list_entries := stringify entries |} in
  '(w1, wordIds) ← Store.d1UpsertUserWords uuid w0 userId (List.map toUpsertEntry entries);
  let idByWord : gmap jsstring jsstring := list_to_map (rev wordIds) in
  mret {| words := fold_left (saveSynonyms idByWord) entries w1;
          vocabulary_lists := vocabulary_lists db ++ [snapshot] |}.

End Save.

(** Sample: two entries, one with synonyms. *)
Definition glowEntry : VocabularyEntry :=
  {| word := js "glow"; score := Some (ofZ 7); meaning := Some (js "빛나다");
     example := None; synonyms := Some [js " shine "; js "  "; js "gleam"];
     occurrences := Some (ofZ 2); songTitle := Some (js "Diamonds");
     songArtist := Some (js "Rihanna") |}.

Definition sampleListsDb : ListsDb :=
  {| words := sampleDb; vocabulary_lists := [] |}.

End StoreMore.




(* ===================================================================== *)
(** ** src/db/settings.ts: [saveVocabularyList] *)
(* ===================================================================== *)

Module Settings.

Import StoreMore.

Section Save.

(** The identifiers drawn by [gen_random_uuid()], in the order of the
    draws. *)
Variable uuid : nat -> jsstring.

(** [JSON.stringify] on the entry array. *)
Variable stringify : list VocabularyEntry -> jsstring.

(** The entry handed to the word upsert: word, meaning and occurrences. *)
Definition toUpsertEntry (e : VocabularyEntry) : Store.UpsertUserWordEntry :=
  {| Store.e_word := trim (word e);
     Store.e_meaning := meaning e;
     Store.e_occurrences := occurrences e;
     Store.e_songTitle := None;
     Store.e_songArtist := None |}.

(** The loop that stores the synonyms of one entry. *)
Definition saveSynonyms (idByWord : gmap jsstring jsstring) (d : Store.Db) (e : VocabularyEntry)
  : Store.Db :=
  match synonyms e with
  | Some (s :: ss) =>
      match idByWord !! trim (word e) with
      | Some (c :: i) => Store.insertWordSynonyms d (c :: i) (s :: ss)
      | _ => d
      end
  | _ => d
  end.

(** [saveVocabularyList], on entries that are objects with a string [word].
    The [entries] column is [jsonb]: it holds the value of the text that
    [JSON.stringify] gives, kept here as that text. *)
Definition saveVocabularyList (db : ListsDb) (payload : SaveVocabularyPayload) : ListsDb :=
  let '(newId, w0) := Store.drawId uuid (words db) in
  let snapshot :=
    {| list_id := newId; list_user_id := payload_userId payload;
       list_title := payload_title payload;
       list_entries := stringify (payload_entries payload) |} in
  let '(w1, wordIds) :=
    Store.upsertUserWords uuid w0 (payload_userId payload)
      (List.map toUpsertEntry (payload_entries payload)) in
  let idByWord : gmap jsstring jsstring := list_to_map (rev wordIds) in
  {| words := fold_left (saveSynonyms idByWord) (payload_entries payload) w1;
     vocabulary_lists := vocabulary_lists db ++ [snapshot] |}.

End Save.

End Settings.


(* ===================================================================== *)
(** ** src/routes/v1.ts: the environment of [POST /vocabulary/generate] *)
(* ===================================================================== *)

Module Route.

Import StoreMore.

(** The tables the handler reaches through its environment. *)
Record AppDb := {
  lists : ListsDb;
  user_vocabulary_settings : list (jsstring * UserVocabularySettingsRow)
}.

(** The store as far as it is followed: when a statement of a save throws,
    the writes made before it stay in the store and are not followed any
    further. *)
Inductive Tracked :=
| Known (db : AppDb)
| Unfollowed.

(** [SELECT language, level, max_words, min_length FROM
    user_vocabulary_settings WHERE user_id = ?], then [first()]. *)
Definition selectSettings (db : AppDb) (uid : jsstring) : option UserVocabularySettingsRow :=
  snd <$> head (List.filter (fun p => bool_decide (fst p = uid))
                  (user_vocabulary_settings db)).

(** [{...e, songTitle, songArtist}] *)
Definition withSong (title artist : jsstring) (e : VocabularyEntry) : VocabularyEntry :=
  {| word := word e; score := score e; meaning := meaning e; example := example e;
     synonyms := synonyms e; occurrences := occurrences e;
     songTitle := Some title; songArtist := Some artist |}.

(** [body.title?.trim() || `${songTitle} - ${songArtist}`] *)
Definition listTitle (bodyTitle : option jsstring) (title artist : jsstring) : jsstring :=
  match bodyTitle with
  | Some t => if nonEmpty (trim t) then trim t else title ++ js " - " ++ artist
  | None => title ++ js " - " ++ artist
  end.

Section Generate.

Variable uuid : nat -> jsstring.
Variable stringify : list VocabularyEntry -> jsstring.

(** The [env] the handler builds: the model key, the settings lookup and the
    save that adds the song to every entry. *)
Definition generateEnv (geminiKey : option jsstring) (title artist : jsstring)
  : VocabularyEnvWithDb Tracked :=
  {| env_base :=
       {| GEMINI_API_KEY := geminiKey; GEMINI_MODEL := None; GEMINI_BASE_URL := None |};
     getVocabularySettings :=
       Some (fun uid s =>
               match s with
               | Known db => Ok (selectSettings db uid)
               | Unfollowed => Throw ConstraintViolation
               end);
     saveVocabularyList :=
       Some (fun payload s =>
               match s with
               | Known db =>
                   match d1SaveVocabularyList uuid stringify (lists db)
                           (payload_userId payload)
                           (List.map (withSong title artist) (payload_entries payload))
                           (payload_title payload) with
                   | Ok l =>
                       (Known {| lists := l;
                                 user_vocabulary_settings := user_vocabulary_settings db |},
                        None)
                   | Throw e => (Unfollowed, Some e)
                   end
               | Unfollowed => (Unfollowed, Some ConstraintViolation)
               end) |}.

End Generate.

(** Sample: a settings table with a row for [u1]. *)
Definition sampleAppDb : AppDb :=
  {| lists := sampleListsDb;
     user_vocabulary_settings := [(js "u1", sampleRow)] |}.

End Route.

(* ===================================================================== *)
(** ** src/db/d1-users.ts: users and their vocabulary settings *)
(* ===================================================================== *)

Module Users.

(** A row of [users] ([created_at] left out). *)
Record UserRow := {
  u_id : jsstring;
  provider : jsstring;
  provider_user_id : jsstring;
  email : option jsstring;
  display_name : option jsstring
}.

(** [users] and [user_vocabulary_settings] (a row per user id; its four
    columns are [NOT NULL], as in [UserVocabularySettingsRow]); [next] counts
    the identifiers drawn so far. *)
Record Db := {
  users : list UserRow;
  user_vocabulary_settings : list (jsstring * UserVocabularySettingsRow);
  next : nat
}.

Record SyncUserResult := {
  internal_id : jsstring;
  is_new_user : bool
}.

(** [settings] has the four fields of a settings row. *)
Record UserProfileData := {
  profile_id : jsstring;
  profile_display_name : option jsstring;
  profile_email : option jsstring;
  settings : option UserVocabularySettingsRow
}.

Record UpdateSettingsPayload := {
  p_language : option jsstring;
  p_level : option jsstring;
  p_max_words : option number;
  p_min_length : option number
}.

(** The values of [INSERT_SETTINGS_SQL]: ['en', 'intermediate', 30, 2]. *)
Definition defaultSettings : UserVocabularySettingsRow :=
  {| row_language := js "en"; row_level := js "intermediate";
     max_words := ofZ 30; min_length := ofZ 2 |}.

Definition hasProvider (p pid : jsstring) (r : UserRow) : bool :=
  bool_decide (provider r = p) && bool_decide (provider_user_id r = pid).

(** [SELECT id FROM users WHERE provider = ? AND provider_user_id = ? LIMIT 1],
    then [first()]. *)
Definition selectUserByProvider (db : Db) (p pid : jsstring) : option UserRow :=
  head (List.filter (hasProvider p pid) (users db)).

Definition selectUserById (db : Db) (userId : jsstring) : option UserRow :=
  head (List.filter (fun r => bool_decide (u_id r = userId)) (users db)).

(** [SELECT language, level, max_words, min_length FROM
    user_vocabulary_settings WHERE user_id = ?], first row. *)
Definition selectSettings (db : Db) (userId : jsstring) : option UserVocabularySettingsRow :=
  snd <$> head (List.filter (fun p => bool_decide (fst p = userId))
                  (user_vocabulary_settings db)).

(** [INSERT INTO users]: refused by the primary key and by the unique index
    on (provider, provider_user_id). *)
Definition insertUser (r : UserRow) (db : Db) : result Db :=
  if bool_decide (u_id r ∈ List.map u_id (users db))
     || existsb (hasProvider (provider r) (provider_user_id r)) (users db)
  then Throw ConstraintViolation
  else Ok {| users := users db ++ [r];
             user_vocabulary_settings := user_vocabulary_settings db;
             next := next db |}.

(** [INSERT INTO user_vocabulary_settings]: refused by the primary key
    [user_id] and by [REFERENCES users (id)]. *)
Definition insertSettings (userId : jsstring) (row : UserVocabularySettingsRow) (db : Db)
  : result Db :=
  if bool_decide (userId ∈ List.map fst (user_vocabulary_settings db))
  then Throw ConstraintViolation
  else if bool_decide (userId ∈ List.map u_id (users db))
  then Ok {| users := users db;
             user_vocabulary_settings := user_vocabulary_settings db ++ [(userId, row)];
             next := next db |}
  else Throw ConstraintViolation.

(** [INSERT ... ON CONFLICT (user_id) DO UPDATE SET language = excluded.language,
    level = excluded.level, max_words = excluded.max_words,
    min_length = excluded.min_length] *)
Definition upsertSettings (userId : jsstring) (row : UserVocabularySettingsRow) (db : Db)
  : result Db :=
  if bool_decide (userId ∈ List.map fst (user_vocabulary_settings db))
  then Ok {| users := users db;
             user_vocabulary_settings :=
               List.map (fun p => if bool_decide (fst p = userId) then (userId, row) else p)
                 (user_vocabulary_settings db);
             next := next db |}
  else insertSettings userId row db.

Section Sync.

(** The identifiers drawn by [generateUUID], in the order of the draws. *)
Variable uuid : nat -> jsstring.

(** [d1SyncUserFromOAuth]; the two inserts run as one batch, which either
    makes both or none. *)
Definition d1SyncUserFromOAuth (db : Db) (p pid : jsstring)
    (email' displayName : option jsstring) : result (Db * SyncUserResult) :=
  match selectUserByProvider db p pid with
  | Some existing => Ok (db, {| internal_id := u_id existing; is_new_user := false |})
  | None =>
      let userId := uuid (next db) in
      let db0 := {| users := users db;
                    user_vocabulary_settings := user_vocabulary_settings db;
                    next := S (next db) |} in
      db1 ← insertUser {| u_id := userId; provider := p; provider_user_id := pid;
                          email := email'; display_name := displayName |} db0;
      db2 ← insertSettings userId defaultSettings db1;
      mret (db2, {| internal_id := userId; is_new_user := true |})
  end.

End Sync.

(** [d1GetUserProfile]: the user joined with its settings row, if it has
    one. *)
Definition d1GetUserProfile (db : Db) (userId : jsstring) : option UserProfileData :=
  match selectUserById db userId with
  | None => None
  | Some u =>
      Some {| profile_id := u_id u;
              profile_email := email u;
              profile_display_name := display_name u;
              settings := selectSettings db (u_id u) |}
  end.

(** [d1UpdateUserVocabularySettings]: the row bound is the payload with
    ['en', 'intermediate', 30, 2] for the fields it leaves out, and that row
    is returned. *)
Definition d1UpdateUserVocabularySettings (db : Db) (userId : jsstring)
    (payload : UpdateSettingsPayload) : result (Db * UserVocabularySettingsRow) :=
  let row :=
    {| row_language := default (js "en") (p_language payload);
       row_level := default (js "intermediate") (p_level payload);
       max_words := default (ofZ 30) (p_max_words payload);
       min_length := default (ofZ 2) (p_min_length payload) |} in
  db' ← upsertSettings userId row db;
  mret (db', row).

(** The constraints of the schema on the two tables. *)
Definition wellFormed (db : Db) : Prop :=
  NoDup (List.map u_id (users db))
  /\ NoDup (List.map (fun r => (provider r, provider_user_id r)) (users db))
  /\ NoDup (List.map fst (user_vocabulary_settings db))
  /\ forall uid, uid ∈ List.map fst (user_vocabulary_settings db) ->
                 uid ∈ List.map u_id (users db).

(** Sample: one user, with settings of their own. *)
Definition sampleDb : Db :=
  {| users := [{| u_id := js "u1"; provider := js "google"; provider_user_id := js "g-1";
                  email := None; display_name := Some (js "Ann") |}];
     user_vocabulary_settings :=
       [(js "u1", {| row_language := js "ko"; row_level := js "advanced";
                     max_words := ofZ 50; min_length := ofZ 3 |})];
     next := 0 |}.

Definition levelOnly : UpdateSettingsPayload :=
  {| p_language := None; p_level := Some (js "beginner");
     p_max_words := None; p_min_length := None |}.

End Users.

(* ===================================================================== *)
(** ** src/lib/jwt.ts, src/lib/auth.ts and the guard of src/routes/v1.ts *)
(* ===================================================================== *)

Module Auth.

Record JwtEnv := { JWT_SECRET : jsstring }.

(** What a guarded request comes to. *)
Inductive Outcome :=
| ServiceUnavailable
| Unauthorized
| Next (userId : jsstring).

Section Verify.

(** [jose.jwtVerify(token, secret, {issuer, audience})] is a library call:
    it throws, or gives a payload, whose [sub] is a string when it is
    there. *)
Variable jwtVerify : jsstring -> jsstring -> result (option jsstring).

(** [verifyJwt]: the [sub] of the payload, or [null]. *)
Definition verifyJwt (token : jsstring) (env : JwtEnv) : option jsstring :=
  match jwtVerify token (JWT_SECRET env) with
  | Ok (Some (c :: sub)) => Some (c :: sub)
  | _ => None
  end.

(** [getUserIdFromRequest]; [authorization] is the header of that name. *)
Definition getUserIdFromRequest (authorization : option jsstring) (env : JwtEnv)
  : option jsstring :=
  match authorization with
  | None => None
  | Some auth =>
      if negb (nonEmpty auth) || negb (startsWith (js "Bearer ") auth) then None
      else
        let token := trim (drop 7 auth) in
        if negb (nonEmpty token) then None
        else verifyJwt token env
  end.

(** [authEndpoint]; [env] is what [getAuthEnv] finds. *)
Definition authEndpoint (env : option JwtEnv) (authorization : option jsstring) : Outcome :=
  match env with
  | None => ServiceUnavailable
  | Some e =>
      if negb (nonEmpty (JWT_SECRET e)) then ServiceUnavailable
      else
        match getUserIdFromRequest authorization e with
        | Some (c :: userId) => Next (c :: userId)
        | _ => Unauthorized
        end
  end.

End Verify.

End Auth.

(** What one call adds to the count of [w]: for each entry whose trimmed word
    is [w], its [occurrences] when that is a number [>= 1], and 1
    otherwise. *)
Definition addedCount (entries : list Store.UpsertUserWordEntry) (w : jsstring) : number :=
  fold_right
    (fun e acc =>
       if bool_decide (trim (Store.e_word e) = w) then num_add (Store.occurrencesOf e) acc
       else acc)
    (ofZ 0) entries.


Example js_ascii : js "x [1,2" = [120; 32; 91; 49; 44; 50]%N.
Proof. reflexivity. Qed.

Example js_hangul : js "단어 정의" = [45800; 50612; 32; 51221; 51032]%N.
Proof. reflexivity. Qed.

Example js_dash_and_astral : js "1–5 😀" = [49; 8211; 53; 32; 55357; 56832]%N.
Proof. reflexivity. Qed.

Example trim_both : trim (js "  a b
 ") = js "a b".
Proof. reflexivity. Qed.

Example parse_object :
  Json.parse (jsq " {'a': [1, -2.50, 1e2, true, null], 'b': 'x\u0041\n'} ")
  = Some (JObject [(js "a", JArray [JNumber 1; JNumber (-5 # 2); JNumber 100;
                                    JBool true; JNull]);
                   (js "b", JString [120; 65; 10]%N)]).
Proof. vm_compute. reflexivity. Qed.

Example parse_errors :
  List.map Json.parse
    [js "x [1,2"; js "[1,2"; js "01"; js "[1,]"; js "1 2"; jsq "{'a' 1}"; [];
     js "not valid json array"; js "-"; js "1."; js "tru"]
  = List.map (fun _ => None) (seq 0 11).
Proof. vm_compute. reflexivity. Qed.

Example lyrics_two_regions :
  Genius.extractLyricsFromHtml
    (jsq "<p>x</p><div class='a' data-lyrics-container='true' id='b'>Hello<BR />you &amp; <i>me</i> &#x41;&#66;</div><div>no</div></div><div data-lyrics-container='true'> &gt;&quot;&#39;&APOS; </div>")
  = Ok (jsq "Hello
you & me AB

>'" ++ js "''").
Proof. vm_compute. reflexivity. Qed.

Example lyrics_none :
  Genius.extractLyricsFromHtml (js "<div>nothing here</div>") = Throw NoLyrics.
Proof. vm_compute. reflexivity. Qed.

(* ===================================================================== *)
(** ** Properties of the response parser *)
(* ===================================================================== *)

Section ParserFacts.

Context `{CaseMapping}.

Lemma key_withOccurrences e n : key (withOccurrences e n) = key e.
Proof. reflexivity. Qed.

Lemma countByWord_from (l : list VocabularyEntry) (m : gmap jsstring nat) k :
  fold_left (fun m e => <[key e := default 0 (m !! key e) + 1]> m) l m !! k
  = match matches k l with
    | O => m !! k
    | S n => Some (default 0 (m !! k) + S n)
    end.
Proof.
  revert m. induction l as [|e l IH]; intros m; [reflexivity|].
  cbn [fold_left]. rewrite IH. unfold matches. cbn [List.filter].
  destruct (decide (key e = k)) as [->|Hne].
  - rewrite bool_decide_eq_true_2 by reflexivity. cbn [length].
    rewrite lookup_insert_eq. cbn [default].
    destruct (length _); f_equal; unfold id; lia.
  - rewrite bool_decide_eq_false_2 by assumption.
    rewrite lookup_insert_ne by assumption. reflexivity.
Qed.

Lemma countByWord_lookup l k :
  countByWord l !! k = match matches k l with O => None | S n => Some (S n) end.
Proof.
  unfold countByWord. rewrite countByWord_from, lookup_empty.
  destruct (matches k l); reflexivity.
Qed.

Lemma matches_pos e l : e ∈ l -> matches (key e) l <> O.
Proof.
  unfold matches. induction 1 as [e l|e e' l _ IH]; cbn [List.filter].
  - rewrite bool_decide_eq_true_2 by reflexivity. discriminate.
  - destruct (bool_decide _); [discriminate | exact IH].
Qed.

Lemma countByWord_elem e l :
  e ∈ l -> default 1 (countByWord l !! key e) = matches (key e) l.
Proof.
  intros Hin. rewrite countByWord_lookup.
  pose proof (matches_pos _ _ Hin). destruct (matches (key e) l); [done|reflexivity].
Qed.

(** What the [seen] filter keeps: entries of [l] with a key not seen before,
    each the first of [l] with its key, no key twice. *)
Lemma dedupe_spec seen l :
  NoDup (List.map key (dedupe seen l))
  /\ Forall (fun e => (key e ∉ seen) /\ (e ∈ l) /\ firstWith (key e) l = Some e)
            (dedupe seen l).
Proof.
  revert seen. induction l as [|e l IH]; intros seen; cbn [dedupe].
  - split; constructor.
  - destruct (decide (key e ∈ seen)) as [Hin|Hout].
    + destruct (IH seen) as [Hnd Hall]. split; [exact Hnd|].
      eapply Forall_impl; [exact Hall|]. cbn beta.
      intros x (Hx & Hl & Hf). split_and!; [done | by right |].
      unfold firstWith in *. cbn [List.find].
      rewrite bool_decide_eq_false_2; [exact Hf|]. congruence.
    + destruct (IH ({[key e]} ∪ seen)) as [Hnd Hall]. split.
      * cbn [List.map]. apply NoDup_cons. split; [|exact Hnd].
        intros Hk. apply list_elem_of_In, List.in_map_iff in Hk as (x & Hkx & Hx).
        apply list_elem_of_In in Hx. symmetry in Hkx.
        rewrite Forall_forall in Hall. destruct (Hall x Hx) as (Hns & _).
        apply Hns. rewrite Hkx, elem_of_union, elem_of_singleton. by left.
      * constructor.
        -- split_and!; [done | by left |].
           unfold firstWith. cbn [List.find].
           by rewrite bool_decide_eq_true_2.
        -- eapply Forall_impl; [exact Hall|]. cbn beta.
           intros x (Hx & Hl & Hf).
           rewrite elem_of_union, elem_of_singleton in Hx.
           split_and!; [tauto | by right |].
           unfold firstWith in *. cbn [List.find].
           rewrite bool_decide_eq_false_2; [exact Hf|]. intros Heq. apply Hx. by left.
Qed.

(** [slice(0, n)] keeps a prefix. *)
Lemma slice0_take {A} (n : number) (l : list A) : exists k, slice0 n l = take k l.
Proof.
  destruct n as [q| | |]; cbn.
  - destruct (Qtrunc q <? 0)%Z; eauto.
  - exists 0. reflexivity.
  - exists (length l). by rewrite take_ge.
  - exists 0. reflexivity.
Qed.

End ParserFacts.

Section ParserUniqueness.

Context `{CaseMapping}.

Lemma dedupeAndCount_spec l maxWords :
  NoDup (List.map key (dedupeAndCount l maxWords))
  /\ Forall (fun e => exists c,
               firstWith (key e) l = Some c
               /\ e = withOccurrences c (ofNat (matches (key e) l)))
            (dedupeAndCount l maxWords).
Proof.
  unfold dedupeAndCount.
  destruct (slice0_take maxWords
              (List.map (fun e => withOccurrences e
                                    (ofNat (default 1 (countByWord l !! key e))))
                        (dedupe ∅ l))) as [k ->].
  destruct (dedupe_spec ∅ l) as [Hnd Hall]. split.
  - rewrite List.firstn_map, List.map_map.
    erewrite List.map_ext by (intros; apply key_withOccurrences).
    rewrite <- List.firstn_map.
    rewrite <- (take_drop k (List.map key (dedupe ∅ l))) in Hnd.
    apply NoDup_app in Hnd. tauto.
  - apply Forall_take, Forall_forall. intros e He.
    apply list_elem_of_In, List.in_map_iff in He as (c & <- & Hc).
    apply list_elem_of_In in Hc.
    rewrite Forall_forall in Hall. destruct (Hall c Hc) as (_ & Hin & Hfirst).
    exists c. rewrite key_withOccurrences, (countByWord_elem _ _ Hin). done.
Qed.

(** C1. Whatever the text and the limits, when the parser returns a list its
    entries have pairwise distinct case-folded words; each entry is the first
    candidate with its case-folded word (so the first occurrence is the one
    kept), with [occurrences] set to the number of candidates, before
    deduplication, whose case-folded word is the same. *)
Theorem parser_unique_words_and_occurrences
    (text : jsstring) (maxWords minLength : number) (out : list VocabularyEntry) :
  parseVocabularyResponse text maxWords minLength = Ok out ->
  NoDup (List.map key out)
  /\ Forall (fun e =>
               occurrences e
               = Some (ofNat (matches (key e) (candidates text minLength))))
            out
  /\ Forall (fun e => exists c,
               firstWith (key e) (candidates text minLength) = Some c
               /\ e = withOccurrences c (ofNat (matches (key e) (candidates text minLength))))
            out.
Proof.
  unfold parseVocabularyResponse, candidates.
  destruct (Json.parse (jsonStr (trim text))) as [[| | | |parsed|]|];
    intros Hout; try discriminate; injection Hout as <-;
    try (split_and!; constructor).
  destruct (dedupeAndCount_spec (normalized parsed minLength) maxWords) as [Hnd Hall].
  split_and!; [exact Hnd | | exact Hall].
  eapply Forall_impl; [exact Hall|]. cbn beta. intros e (c & _ & He).
  apply (f_equal occurrences) in He. exact He.
Qed.

End ParserUniqueness.

Section ParserScenario.

Context `{CaseMapping}.

(** The parser only looks at the case folding of the candidates' words. *)
Lemma dedupe_ext (H' : CaseMapping) l seen :
  Forall (fun e => @key H e = @key H' e) l ->
  @dedupe H seen l = @dedupe H' seen l.
Proof.
  intros Hl. revert seen. induction Hl as [|e l He _ IH]; intros seen; [reflexivity|].
  cbn [dedupe]. rewrite He. destruct (decide _); rewrite IH; reflexivity.
Qed.

Lemma countByWord_ext (H' : CaseMapping) l :
  Forall (fun e => @key H e = @key H' e) l ->
  @countByWord H l = @countByWord H' l.
Proof.
  unfold countByWord. generalize (∅ : gmap jsstring nat).
  intros m Hl. revert m. induction Hl as [|e l He _ IH]; intros m; [reflexivity|].
  cbn [fold_left]. rewrite He. apply IH.
Qed.

Lemma dedupeAndCount_ext (H' : CaseMapping) l maxWords :
  Forall (fun e => @key H e = @key H' e) l ->
  @dedupeAndCount H l maxWords = @dedupeAndCount H' l maxWords.
Proof.
  intros Hl. unfold dedupeAndCount.
  rewrite (dedupe_ext H' l ∅ Hl), (countByWord_ext H' l Hl). f_equal.
  apply List.map_ext_in. intros e He.
  destruct (@dedupe_spec H' ∅ l) as [_ Hall].
  rewrite Forall_forall in Hall, Hl.
  apply list_elem_of_In in He. destruct (Hall e He) as (_ & Hin & _).
  by rewrite (Hl e Hin).
Qed.

Lemma key_ascii e :
  Forall isAscii (word e) -> @key H e = @key asciiCaseMapping e.
Proof. intros Ha. unfold key. by rewrite toLowerCase_ascii. Qed.

(** C2. On the scenario text with [maxWords = 10] and [minLength = 2] the
    parser returns exactly two entries, in this order: "shine" with score 8
    and 2 occurrences, then "forever" with score 7 and 1 occurrence. *)
Theorem parser_shine_scenario :
  parseVocabularyResponse shineText (ofZ 10) (ofZ 2) = Ok shineEntries.
Proof.
  unfold parseVocabularyResponse.
  replace (Json.parse (jsonStr (trim shineText)))
    with (Some (JArray
            [JObject [(js "word", JString (js "shine")); (js "score", JNumber 8)];
             JObject [(js "word", JString (js "Shine")); (js "score", JNumber 5)];
             JObject [(js "word", JString (js "forever")); (js "score", JNumber 7)]]))
    by (vm_compute; reflexivity).
  f_equal. rewrite (dedupeAndCount_ext asciiCaseMapping).
  - vm_compute. reflexivity.
  - apply Forall_forall. intros e He. apply key_ascii.
    revert e He. apply Forall_forall. vm_compute.
    repeat (constructor; try reflexivity).
Qed.

End ParserScenario.

Section ParserBounds.

Context `{CaseMapping}.

Lemma normalized_minLength parsed minLength e :
  e ∈ normalized parsed minLength ->
  num_ge (ofNat (length (word e))) minLength = true.
Proof.
  unfold normalized. rewrite list_elem_of_In, List.filter_In. tauto.
Qed.

Lemma firstWith_elem k l c : firstWith k l = Some c -> c ∈ l.
Proof.
  unfold firstWith. intros Hf. apply List.find_some in Hf as [Hin _].
  by apply list_elem_of_In.
Qed.

Lemma Qtrunc_le (q : Q) : (0 <= q)%Q -> (0 <= Qtrunc q)%Z /\ (inject_Z (Qtrunc q) <= q)%Q.
Proof.
  intros Hq. unfold Qtrunc.
  apply Qle_bool_iff in Hq as Hb. rewrite Hb. split; [|apply Qfloor_le].
  change 0%Z with (Qfloor (inject_Z 0)). by apply Qfloor_resp_le.
Qed.

(** With a limit that is not negative, [slice(0, maxWords)] has at most
    [maxWords] elements. *)
Lemma slice0_length {A} (maxWords : number) (l : list A) :
  num_ge maxWords (ofZ 0) = true ->
  num_le (ofNat (length (slice0 maxWords l))) maxWords = true.
Proof.
  destruct maxWords as [q| | |]; cbn; try done.
  intros Hq. apply Qle_bool_iff in Hq.
  destruct (Qtrunc_le q Hq) as [Hk Hle].
  destruct (Z.ltb_spec (Qtrunc q) 0); [lia|].
  apply Qle_bool_iff. eapply Qle_trans; [|exact Hle].
  rewrite <- Zle_Qle, length_take. lia.
Qed.

(** C8, as the code has it. When the parser returns a list, every entry's
    word has at least [minLength] code units (whatever [minLength] is), and
    the list has at most [maxWords] entries provided [maxWords >= 0]. *)
Theorem parser_respects_limits
    (text : jsstring) (maxWords minLength : number) (out : list VocabularyEntry) :
  parseVocabularyResponse text maxWords minLength = Ok out ->
  Forall (fun e => num_ge (ofNat (length (word e))) minLength = true) out
  /\ (num_ge maxWords (ofZ 0) = true -> num_le (ofNat (length out)) maxWords = true).
Proof.
  unfold parseVocabularyResponse.
  destruct (Json.parse _) as [[| | | |parsed|]|]; intros Hout;
    try discriminate; injection Hout as <-.
  1-4, 6: split; [constructor | destruct maxWords; done].
  split; [|apply slice0_length].
  destruct (dedupeAndCount_spec (normalized parsed minLength) maxWords) as [_ Hall].
  eapply Forall_impl; [exact Hall|]. cbn beta. intros e (c & Hc & He).
  apply firstWith_elem in Hc. apply (f_equal word) in He. cbn in He. rewrite He.
  by apply normalized_minLength in Hc.
Qed.

End ParserBounds.

(** C8, as stated, fails for a negative limit: [slice(0, -1)] drops the last
    element only, so the scenario text with [maxWords = -1] yields one entry,
    and 1 <= -1 does not hold. *)
Lemma parser_negative_maxWords_counterexample :
  ~ (forall (H : CaseMapping) (text : jsstring) (maxWords minLength : number)
            (out : list VocabularyEntry),
        parseVocabularyResponse text maxWords minLength = Ok out ->
        num_le (ofNat (length out)) maxWords = true
        /\ Forall (fun e => num_ge (ofNat (length (word e))) minLength = true) out).
Proof.
  intros Hclaim.
  destruct (Hclaim asciiCaseMapping shineText (ofZ (-1)) (ofZ 2)
              [plainEntry (js "shine") 8 2]) as [Hlen _].
  - vm_compute. reflexivity.
  - vm_compute in Hlen. discriminate.
Qed.

Lemma parser_respects_limits_witness :
  Forall (fun e => num_ge (ofNat (length (word e))) (ofZ 2) = true) shineEntries
  /\ num_le (ofNat (length shineEntries)) (ofZ 10) = true.
Proof.
  destruct (@parser_respects_limits asciiCaseMapping shineText (ofZ 10) (ofZ 2) shineEntries)
    as [Hwords Hlen].
  - vm_compute. reflexivity.
  - split; [exact Hwords | apply Hlen; reflexivity].
Defined.

Lemma parser_unique_words_and_occurrences_witness :
  NoDup (List.map (@key asciiCaseMapping) shineEntries)
  /\ Forall (fun e =>
               occurrences e
               = Some (ofNat (@matches asciiCaseMapping (@key asciiCaseMapping e)
                                (candidates shineText (ofZ 2)))))
            shineEntries
  /\ Forall (fun e => exists c,
               @firstWith asciiCaseMapping (@key asciiCaseMapping e)
                 (candidates shineText (ofZ 2)) = Some c
               /\ e = withOccurrences c
                        (ofNat (@matches asciiCaseMapping (@key asciiCaseMapping e)
                                  (candidates shineText (ofZ 2)))))
            shineEntries.
Proof.
  apply (@parser_unique_words_and_occurrences asciiCaseMapping shineText (ofZ 10) (ofZ 2)).
  vm_compute. reflexivity.
Defined.

(* ===================================================================== *)
(** ** The bracket scan *)
(* ===================================================================== *)

Lemma balance_cons c s :
  balance (c :: s)
  = ((if (c =? 91)%N then 1 else if (c =? 93)%N then -1 else 0) + balance s)%Z.
Proof.
  unfold balance. cbn [count_occ].
  destruct (N.eqb_spec c 91%N), (N.eqb_spec c 93%N); subst;
    repeat destruct (N.eq_dec _ _); try done; lia.
Qed.

(** The scan finds no index when the depth is never back to zero. *)
Lemma matchBracket_none s depth i :
  (forall j, j < length s -> (depth + balance (take (S j) s))%Z <> 0%Z) ->
  matchBracket s depth i = None.
Proof.
  revert depth i. induction s as [|c s IH]; intros depth i Hnz; [reflexivity|].
  cbn [matchBracket].
  pose proof (Hnz 0 ltac:(cbn; lia)) as H0.
  rewrite firstn_cons, take_0, balance_cons in H0. change (balance []) with 0%Z in H0.
  set (depth' := if (c =? 91)%N then _ else _).
  assert (depth' = (depth + (if (c =? 91)%N then 1 else if (c =? 93)%N then -1 else 0))%Z)
    as Hd by (subst depth'; repeat destruct (_ =? _)%N; lia).
  destruct (Z.eqb_spec depth' 0) as [Hz|_]; [lia|].
  apply IH. intros j Hj. specialize (Hnz (S j) ltac:(cbn; lia)).
  rewrite firstn_cons, balance_cons in Hnz. lia.
Qed.

Section BracketScan.

Context `{CaseMapping}.

(** C10. If the trimmed text has a [[] but the nesting depth, counted from
    the first [[], is never back to zero before the end, the text handed to
    [JSON.parse] is the whole trimmed text; so when the trimmed text is not
    JSON, as for [x [1,2], the parser raises the invalid-JSON error. *)
Theorem parser_unbalanced_bracket
    (text : jsstring) (firstBracket : nat) (maxWords minLength : number) :
  indexOf 91%N (trim text) = Some firstBracket ->
  (forall i, firstBracket <= i < length (trim text) ->
             depthAfter (trim text) firstBracket i <> 0%Z) ->
  jsonStr (trim text) = trim text
  /\ (Json.parse (trim text) = None ->
      parseVocabularyResponse text maxWords minLength = Throw InvalidJson).
Proof.
  intros Hfirst Hdepth.
  assert (jsonStr (trim text) = trim text) as Hcand.
  { unfold jsonStr. rewrite Hfirst. rewrite matchBracket_none; [reflexivity|].
    intros j Hj. rewrite length_drop in Hj. cbn [Z.add].
    specialize (Hdepth (firstBracket + j) ltac:(lia)).
    unfold depthAfter, substring in Hdepth.
    by replace (firstBracket + j + 1 - firstBracket) with (S j) in Hdepth by lia. }
  split; [exact Hcand|].
  intros Hparse. unfold parseVocabularyResponse. by rewrite Hcand, Hparse.
Qed.

End BracketScan.

Lemma parser_unbalanced_bracket_witness :
  jsonStr (trim (js "x [1,2")) = trim (js "x [1,2")
  /\ @parseVocabularyResponse asciiCaseMapping (js "x [1,2") (ofZ 10) (ofZ 2)
     = Throw InvalidJson.
Proof.
  destruct (@parser_unbalanced_bracket asciiCaseMapping (js "x [1,2") 2 (ofZ 10) (ofZ 2))
    as [Hcand Hthrow].
  - vm_compute. reflexivity.
  - intros i [Hlo Hhi]. change (length (trim (js "x [1,2"))) with 6 in Hhi.
    destruct i as [|[|[|[|[|[|i]]]]]]; try lia; vm_compute; discriminate.
  - split; [exact Hcand | apply Hthrow; vm_compute; reflexivity].
Defined.

(* ===================================================================== *)
(** ** The settings resolver *)
(* ===================================================================== *)

Lemma inRange_test lo hi n :
  isFinite n && num_ge n (ofZ lo) && num_le n (ofZ hi) = true <-> inRange lo hi n.
Proof.
  destruct n as [q| | |]; cbn; try (split; [discriminate|tauto]).
  rewrite andb_true_iff, !Qle_bool_iff. reflexivity.
Qed.

(** C7. With a lookup that resolves, the resolver returns options: the fixed
    defaults when there is no row; otherwise "ko" is kept and any other
    language is "en", "beginner" and "advanced" are kept and any other level is
    "intermediate", a [max_words] in [1, 200] is kept and any other value
    (out of range or not finite) is 30, a [min_length] in [1, 20] is kept and
    any other value is 2. *)
Theorem settings_resolver
    (userId : jsstring)
    (getSettings : jsstring -> result (option UserVocabularySettingsRow))
    (found : option UserVocabularySettingsRow) :
  getSettings userId = Ok found ->
  exists opts,
    getVocabularyOptionsForUser userId getSettings = Ok opts
    /\ match found with
       | None =>
           opts = {| language := en; level := Some intermediate;
                     maxWords := Some (ofZ 30); minLength := Some (ofZ 2) |}
       | Some row =>
           (row_language row = js "ko" -> language opts = ko)
           /\ (row_language row <> js "ko" -> language opts = en)
           /\ (row_level row = js "beginner" -> level opts = Some beginner)
           /\ (row_level row = js "advanced" -> level opts = Some advanced)
           /\ (row_level row <> js "beginner" -> row_level row <> js "advanced" ->
               level opts = Some intermediate)
           /\ (inRange 1 200 (max_words row) -> maxWords opts = Some (max_words row))
           /\ (~ inRange 1 200 (max_words row) -> maxWords opts = Some (ofZ 30))
           /\ (inRange 1 20 (min_length row) -> minLength opts = Some (min_length row))
           /\ (~ inRange 1 20 (min_length row) -> minLength opts = Some (ofZ 2))
       end.
Proof.
  intros Hget. unfold getVocabularyOptionsForUser. rewrite Hget. cbn.
  eexists. split; [reflexivity|].
  destruct found as [row|]; [|reflexivity].
  unfold rowToOptions. cbn [language level maxWords minLength].
  split_and!.
  - intros ->. reflexivity.
  - intros Hne. by rewrite bool_decide_eq_false_2.
  - intros ->. reflexivity.
  - intros ->. reflexivity.
  - intros Hb Ha. by rewrite !bool_decide_eq_false_2.
  - intros Hr. apply inRange_test in Hr. by rewrite Hr.
  - intros Hr. destruct (_ && _ && _) eqn:Ht; [|reflexivity].
    by apply inRange_test in Ht.
  - intros Hr. apply inRange_test in Hr. by rewrite Hr.
  - intros Hr. destruct (_ && _ && _) eqn:Ht; [|reflexivity].
    by apply inRange_test in Ht.
Qed.

Lemma settings_resolver_witness :
  exists opts,
    getVocabularyOptionsForUser (js "u1") (fun _ => Ok (Some sampleRow)) = Ok opts
    /\ language opts = ko
    /\ level opts = Some intermediate
    /\ maxWords opts = Some (ofZ 30)
    /\ minLength opts = Some (ofZ 3).
Proof.
  destruct (settings_resolver (js "u1") (fun _ => Ok (Some sampleRow)) (Some sampleRow))
    as (opts & Hopts & Hko & _ & _ & _ & Hlevel & _ & Hmax & Hmin & _).
  - reflexivity.
  - exists opts. split_and!.
    + exact Hopts.
    + apply Hko. reflexivity.
    + apply Hlevel; vm_compute; discriminate.
    + apply Hmax. cbn. intros [_ Hle]. vm_compute in Hle. by apply Hle.
    + apply Hmin. cbn. split; vm_compute; discriminate.
Defined.

(* ===================================================================== *)
(** ** The fallback extractor *)
(* ===================================================================== *)

Section FallbackFacts.

Context `{CaseMapping}.

(** C9. The fallback extractor is a total function of the lyrics (none of
    its string and array operations can throw), and every entry it returns
    has [occurrences = 1], [score = 5], no synonyms and the two placeholder
    texts. *)
Theorem fallback_entries (lyrics : jsstring) (maxWords minLength : number) :
  exists out,
    getFallbackVocabulary lyrics maxWords minLength = out
    /\ Forall (fun e =>
                 occurrences e = Some (ofZ 1)
                 /\ score e = Some (ofZ 5)
                 /\ synonyms e = Some []
                 /\ meaning e = Some (js "단어 정의")
                 /\ example e = Some (js "가사에서 추출된 단어"))
              out.
Proof.
  eexists. split; [reflexivity|].
  unfold getFallbackVocabulary. apply Forall_forall. intros e He.
  apply list_elem_of_In, List.in_map_iff in He as (w & <- & _).
  split_and!; reflexivity.
Qed.

End FallbackFacts.

Example fallback_sample :
  List.map word
    (@getFallbackVocabulary asciiCaseMapping
       (js "We shine bright like a diamond. Forever and ever, we SHINE!") (ofZ 3) (ofZ 2))
  = [js "shine"; js "bright"; js "like"].
Proof. vm_compute. reflexivity. Qed.

(* ===================================================================== *)
(** ** The extraction orchestrator *)
(* ===================================================================== *)

Section OrchestratorFacts.

Context `{CaseMapping} `{NumberFormat}.

(** C3. [createVocabularyFromLyrics] throws exactly when the key is absent or
    empty, and then no call to the model has been made.  With a key it
    returns: the parsed entries when the streaming attempt succeeds; on any
    failure of that attempt (of the stream or of the parser) it makes the
    structured call and returns its entries; on any failure of the
    structured call it returns the fallback vocabulary. *)
Theorem orchestrator_failure_handling
    (lyrics : jsstring) (options : VocabularyOptions) (env : VocabularyEnv)
    (client : Gemini.Client) :
  let run := createVocabularyFromLyrics lyrics options env client in
  let maxWords' := default (ofZ 30) (maxWords options) in
  let minLength' := default (ofZ 2) (minLength options) in
  let prompt := buildVocabularyPrompt lyrics options in
  let first := streamingAttempt client prompt (toGeminiEnv env) maxWords' minLength' in
  let second := Gemini.generateStructured client prompt (toGeminiEnv env) in
  (isThrow (snd run) = true <-> keyMissing env)
  /\ (keyMissing env -> run = ([], Throw MissingApiKey))
  /\ (~ keyMissing env ->
      (forall entries, first = Ok entries ->
         run = ([StreamCall prompt], Ok entries))
      /\ (forall e res, first = Throw e -> second = Ok res ->
            run = ([StreamCall prompt; StructuredCall prompt],
                   Ok (structuredEntries (Gemini.items res) maxWords' minLength')))
      /\ (forall e e2, first = Throw e -> second = Throw e2 ->
            run = ([StreamCall prompt; StructuredCall prompt],
                   Ok (getFallbackVocabulary lyrics maxWords' minLength')))).
Proof.
  cbv zeta. unfold createVocabularyFromLyrics, keyMissing.
  destruct (GEMINI_API_KEY env) as [[|c k]|].
  - split_and!; [cbn; split; auto | reflexivity | intros []; auto].
  - split_and!.
    + split; [|intros [|]; discriminate].
      destruct (streamingAttempt _ _ _ _ _); [discriminate|].
      destruct (Gemini.generateStructured _ _ _); discriminate.
    + intros [|]; discriminate.
    + intros _. split_and!.
      * intros entries ->. reflexivity.
      * intros e res -> ->. reflexivity.
      * intros e e2 -> ->. reflexivity.
  - split_and!; [cbn; split; auto | reflexivity | intros []; auto].
Qed.

(** C5, at a failing input. The structured attempt tests the length of the
    word as the model gave it and trims afterwards: with [minLength = 2] the
    padded word of [paddedItem] (5 code units) passes the test and is
    returned as a word of 1 code unit. *)
Theorem structured_attempt_trims_after_filter (lyrics : jsstring) :
  createVocabularyFromLyrics lyrics DEFAULT_VOCABULARY_OPTIONS sampleEnv
    (structuredOnly [paddedItem])
  = ([StreamCall (buildVocabularyPrompt lyrics DEFAULT_VOCABULARY_OPTIONS);
      StructuredCall (buildVocabularyPrompt lyrics DEFAULT_VOCABULARY_OPTIONS)],
     Ok [{| word := js "a"; score := None; meaning := None; example := None;
            synonyms := None; occurrences := Some (ofZ 1);
            songTitle := None; songArtist := None |}])
  /\ num_ge (ofNat (length (js "a"))) (ofZ 2) = false.
Proof. split; reflexivity. Qed.

(** What does hold of the structured attempt: [occurrences] is 1, every word
    is the trimmed form of a word whose untrimmed length is at least
    [minLength], and at most [maxWords] entries are returned when
    [maxWords >= 0]. *)
Lemma structuredEntries_facts (l : list Gemini.Item) (maxWords minLength : number) :
  Forall (fun e =>
            occurrences e = Some (ofZ 1)
            /\ exists i, i ∈ l /\ word e = trim (Gemini.word i)
                         /\ num_ge (ofNat (length (Gemini.word i))) minLength = true)
         (structuredEntries l maxWords minLength)
  /\ (num_ge maxWords (ofZ 0) = true ->
      num_le (ofNat (length (structuredEntries l maxWords minLength))) maxWords = true).
Proof.
  unfold structuredEntries. split; [|apply slice0_length].
  destruct (slice0_take maxWords
    (List.map
       (fun e =>
          {| word := trim (Gemini.word e); score := Gemini.score e;
             meaning := Gemini.meaning e; example := Gemini.example e;
             synonyms := Gemini.synonyms e; occurrences := Some (ofZ 1);
             songTitle := None; songArtist := None |})
       (List.filter
          (fun e => nonEmpty (Gemini.word e)
                    && num_ge (ofNat (length (Gemini.word e))) minLength) l)))
    as [k ->].
  apply Forall_take, Forall_forall. intros e He.
  apply list_elem_of_In, List.in_map_iff in He as (i & <- & Hi).
  apply List.filter_In in Hi as [Hi Hlen]. apply andb_true_iff in Hlen as [_ Hlen].
  split; [reflexivity|]. exists i. by rewrite list_elem_of_In.
Qed.

End OrchestratorFacts.

(* ===================================================================== *)
(** ** Lyrics extraction *)
(* ===================================================================== *)

(** C6, at a failing input. [&amp;] is replaced before [&lt;], so the text
    [&amp;lt;] of a lyrics region is first turned into [&lt;] and then into
    [<]: it is decoded twice. *)
Theorem lyrics_entity_decoded_twice :
  Genius.extractLyricsFromHtml escapedPage = Ok (js "<")
  /\ Genius.extractLyricsFromHtml escapedPage <> Ok (js "&lt;").
Proof. split; vm_compute; [reflexivity | discriminate]. Qed.

(* ===================================================================== *)
(** ** Arithmetic of numbers *)
(* ===================================================================== *)

Lemma num_eq_refl a : num_eq a a.
Proof. destruct a; cbn; [reflexivity | trivial..]. Qed.

Lemma num_eq_sym a b : num_eq a b -> num_eq b a.
Proof. destruct a, b; cbn; try tauto. intros ->. reflexivity. Qed.

Lemma num_eq_trans a b c : num_eq a b -> num_eq b c -> num_eq a c.
Proof. destruct a, b, c; cbn; try tauto. intros -> ->. reflexivity. Qed.

#[global] Instance num_eq_equiv : Equivalence num_eq.
Proof.
  split; [exact num_eq_refl | exact num_eq_sym | exact num_eq_trans].
Qed.

#[global] Instance num_add_proper : Proper (num_eq ==> num_eq ==> num_eq) num_add.
Proof.
  intros a a' Ha b b' Hb.
  destruct a, a'; cbn in Ha; try tauto; destruct b, b'; cbn in Hb; try tauto; cbn; trivial.
  by rewrite Ha, Hb.
Qed.




(* ===================================================================== *)
(** ** The word upserts *)
(* ===================================================================== *)

Module StoreFacts.

Import Store StoreSpec.




Section Rows.

Variable uuid : nat -> jsstring.
Hypothesis uuid_nonempty : forall n, uuid n <> [].

Variables (userId w : jsstring) (m t a : option jsstring) (occ : number).

Local Abbreviation bumped := (bumpRow occ m t a userId w).







End Rows.

Section Runs.

Variable uuid : nat -> jsstring.
Hypothesis uuid_nonempty : forall n, uuid n <> [].

Variable userId : jsstring.





End Runs.













End StoreFacts.

Example d1_upsert_twice_sample :
  (r1 ← Store.d1UpsertUserWords StoreSpec.sampleUuid StoreSpec.sampleDb (js "u1")
          StoreSpec.sampleEntries;
   r2 ← Store.d1UpsertUserWords StoreSpec.sampleUuid (fst r1) (js "u1")
          StoreSpec.sampleEntries;
   mret (List.map (fun r => (Store.word r, Store.count r)) (Store.user_words (fst r2)),
         snd r2))
  = Ok ([(js "hello", Fin (10 # 1)); (js "world", Fin (6 # 1))],
        [(js "hello", js "w0"); (js "world", js "u"); (js "hello", js "w0")]).
Proof. vm_compute. reflexivity. Qed.

Example synonyms_twice_sample :
  Store.word_synonyms
    (Store.d1InsertWordSynonyms
       (Store.d1InsertWordSynonyms StoreSpec.sampleDb (js "w0") [js " hi"; js "hey "; js " "])
       (js "w0") [js "hey"; js "yo"; js "hi"])
  = [(js "w0", js "hi"); (js "w0", js "hey"); (js "w0", js "yo")].
Proof. vm_compute. reflexivity. Qed.


(* ===================================================================== *)
(** ** The cases of the repository's tests, replayed on the embedding *)
(* ===================================================================== *)


Example test_non_array_json :
  @parseVocabularyResponse asciiCaseMapping (js "{}") (ofZ 30) (ofZ 2) = Ok [].
Proof. vm_compute. reflexivity. Qed.

Example test_invalid_json :
  @parseVocabularyResponse asciiCaseMapping (js "not valid json array") (ofZ 30) (ofZ 2)
  = Throw InvalidJson.
Proof. vm_compute. reflexivity. Qed.

Example test_slice_to_maxWords :
  wordsOf (@parseVocabularyResponse asciiCaseMapping
             (jsq "[{'word':'aa','score':1},{'word':'bb','score':2},{'word':'cc','score':3},{'word':'dd','score':4},{'word':'ee','score':5}]")
             (ofZ 3) (ofZ 2))
  = Ok [js "aa"; js "bb"; js "cc"].
Proof. vm_compute. reflexivity. Qed.

Example test_filter_minLength :
  wordsOf (@parseVocabularyResponse asciiCaseMapping
             (jsq "[{'word':'a','score':1},{'word':'longword','score':8}]")
             (ofZ 30) (ofZ 2))
  = Ok [js "longword"].
Proof. vm_compute. reflexivity. Qed.

Example fenced_answer :
  wordsOf (@parseVocabularyResponse asciiCaseMapping
             (jsq "Here you are: [{'word':' Shine ','synonyms':[' glow ', 3, ' ']}, 7, null, [1], {'word': 5}] Enjoy [it]!")
             (ofZ 30) (ofZ 2))
  = Ok [js "Shine"].
Proof. vm_compute. reflexivity. Qed.

(** The streaming path drops a padded short word, which the structured path
    returns. *)
Example parser_drops_padded_short_word :
  @parseVocabularyResponse asciiCaseMapping (jsq "[{'word':'  a  '}]") (ofZ 30) (ofZ 2)
  = Ok [].
Proof. vm_compute. reflexivity. Qed.

Example test_decode_entities :
  Genius.extractLyricsFromHtml
    (jsq "<div data-lyrics-container='true'><p>&amp; &lt; &gt; &quot; &#x27;</p></div>")
  = Ok (jsq "& < > ' " ++ [39%N]).
Proof. vm_compute. reflexivity. Qed.

Example test_decode_numeric_entities :
  Genius.extractLyricsFromHtml
    (jsq "<div data-lyrics-container='true'><p>&#72;&#101;&#108;&#108;&#111;</p></div>")
  = Ok (js "Hello").
Proof. vm_compute. reflexivity. Qed.

Example code_point_out_of_range :
  Genius.extractLyricsFromHtml (jsq "<div data-lyrics-container='true'>&#x110000;</div>")
  = Throw RangeError.
Proof. vm_compute. reflexivity. Qed.

(* ===================================================================== *)
(** ** Trimming *)
(* ===================================================================== *)

Lemma trimStart_head s c r : trimStart s = c :: r -> isWhiteSpace c = false.
Proof.
  induction s as [|d s IH]; cbn [trimStart]; [discriminate|].
  destruct (isWhiteSpace d) eqn:Hd; [exact IH|]. by intros [= <- _].
Qed.

Lemma trimStart_clean_head c r : isWhiteSpace c = false -> trimStart (c :: r) = c :: r.
Proof. intros Hc. cbn [trimStart]. by rewrite Hc. Qed.

Lemma trimStart_snoc l c :
  isWhiteSpace c = false -> trimStart (l ++ [c]) = trimStart l ++ [c].
Proof.
  intros Hc. induction l as [|d l IH]; cbn [app trimStart]; [by rewrite Hc|].
  by destruct (isWhiteSpace d).
Qed.

(** The shape of a trimmed string: empty, or a code unit that is not white
    space followed by a text whose last code unit, if any, is not white space
    either. *)
Lemma trim_shape s :
  trim s = []
  \/ exists c r, trim s = c :: rev (trimStart (rev r)) /\ isWhiteSpace c = false.
Proof.
  unfold trim, trimEnd. destruct (trimStart s) as [|c r] eqn:Hs; [by left|].
  right. exists c, r. pose proof (trimStart_head _ _ _ Hs) as Hc.
  split; [|exact Hc]. cbn [rev]. by rewrite trimStart_snoc, rev_app_distr.
Qed.

Lemma trim_first_clean c r : isWhiteSpace c = false ->
  trim (c :: rev (trimStart (rev r))) = c :: rev (trimStart (rev r)).
Proof.
  intros Hc. unfold trim at 1, trimEnd. rewrite trimStart_clean_head by exact Hc.
  cbn [rev]. rewrite rev_involutive.
  destruct (trimStart (rev r)) as [|d t] eqn:Ht.
  - cbn. by rewrite Hc.
  - pose proof (trimStart_head _ _ _ Ht) as Hd.
    change ((d :: t) ++ [c]) with (d :: (t ++ [c])).
    rewrite trimStart_clean_head by exact Hd.
    change (d :: (t ++ [c])) with ((d :: t) ++ [c]).
    by rewrite rev_app_distr.
Qed.

(** [trim] is idempotent. *)
Lemma trim_idempotent s : trim (trim s) = trim s.
Proof.
  destruct (trim_shape s) as [->|(c & r & -> & Hc)]; [reflexivity|].
  by apply trim_first_clean.
Qed.

(** A trimmed string that is not empty starts and ends with a code unit that
    is not white space. *)
Lemma trim_ends s c :
  (head (trim s) = Some c -> isWhiteSpace c = false)
  /\ (last (trim s) = Some c -> isWhiteSpace c = false).
Proof.
  destruct (trim_shape s) as [->|(d & r & -> & Hd)]; [split; discriminate|].
  split; [by intros [= <-]|].
  destruct (trimStart (rev r)) as [|e t] eqn:Ht.
  - cbn. by intros [= <-].
  - pose proof (trimStart_head _ _ _ Ht) as He.
    cbn [rev]. change (d :: (rev t ++ [e])) with ((d :: rev t) ++ [e]).
    rewrite last_snoc. by intros [= <-].
Qed.

(** A string that starts and ends with a code unit that is not white space is
    left as it is. *)
Lemma trim_clean s :
  (forall c, head s = Some c -> isWhiteSpace c = false) ->
  (forall c, last s = Some c -> isWhiteSpace c = false) ->
  trim s = s.
Proof.
  intros Hh Hl. destruct s as [|c r]; [reflexivity|].
  unfold trim, trimEnd. rewrite trimStart_clean_head by (by apply Hh).
  destruct (rev (c :: r)) as [|d t] eqn:Hr.
  - apply (f_equal (@rev N)) in Hr. by rewrite rev_involutive in Hr.
  - rewrite trimStart_clean_head.
    + by rewrite <- Hr, rev_involutive.
    + apply Hl. apply (f_equal (@rev N)) in Hr. rewrite rev_involutive in Hr.
      rewrite Hr. cbn [rev]. apply last_snoc.
Qed.

(* ===================================================================== *)
(** ** More on the response parser *)
(* ===================================================================== *)

Section ParserOrder.

Context `{CaseMapping}.

Lemma dedupe_sublist seen l : sublist (dedupe seen l) l.
Proof.
  revert seen. induction l as [|e l IH]; intros seen; cbn [dedupe]; [constructor|].
  destruct (decide _); [by apply sublist_cons | by apply sublist_skip].
Qed.

Lemma dedupeAndCount_kept l maxWords :
  exists kept,
    sublist kept l
    /\ dedupeAndCount l maxWords
       = List.map (fun c => withOccurrences c (ofNat (matches (key c) l))) kept.
Proof.
  unfold dedupeAndCount.
  destruct (slice0_take maxWords
              (List.map (fun e => withOccurrences e
                                    (ofNat (default 1 (countByWord l !! key e))))
                        (dedupe ∅ l))) as [k ->].
  exists (take k (dedupe ∅ l)). split.
  - etrans; [apply sublist_take | apply dedupe_sublist].
  - rewrite List.firstn_map. apply List.map_ext_in. intros c Hc.
    destruct (dedupe_spec ∅ l) as [_ Hall]. rewrite Forall_forall in Hall.
    apply list_elem_of_In in Hc.
    apply (elem_of_sublist _ (dedupe ∅ l)) in Hc; [|apply sublist_take].
    destruct (Hall c Hc) as (_ & Hin & _). by rewrite (countByWord_elem _ _ Hin).
Qed.

(** X1. The entries the parser returns are candidates, in the order in which
    the model gave them: deduplication and truncation only remove entries,
    and each entry kept is a candidate with its count attached. *)
Theorem parser_keeps_candidate_order
    (text : jsstring) (maxWords minLength : number) (out : list VocabularyEntry) :
  parseVocabularyResponse text maxWords minLength = Ok out ->
  exists kept,
    sublist kept (candidates text minLength)
    /\ out = List.map
               (fun c => withOccurrences c
                           (ofNat (matches (key c) (candidates text minLength))))
               kept.
Proof.
  unfold parseVocabularyResponse, candidates.
  destruct (Json.parse (jsonStr (trim text))) as [[| | | |parsed|]|];
    intros Hout; try discriminate; injection Hout as <-;
    try (exists []; split; [constructor | reflexivity]).
  apply dedupeAndCount_kept.
Qed.

End ParserOrder.

Lemma parser_keeps_candidate_order_witness :
  exists kept,
    sublist kept (candidates shineText (ofZ 2))
    /\ shineEntries
       = List.map
           (fun c => withOccurrences c
                       (ofNat (@matches asciiCaseMapping (@key asciiCaseMapping c)
                                 (candidates shineText (ofZ 2)))))
           kept.
Proof.
  apply (@parser_keeps_candidate_order asciiCaseMapping shineText (ofZ 10) (ofZ 2)).
  vm_compute. reflexivity.
Defined.

Lemma Qtrunc_of_nat_le (n : nat) (q : Q) :
  (inject_Z (Z.of_nat n) <= q)%Q -> (Z.of_nat n <= Qtrunc q)%Z.
Proof.
  intros Hn. unfold Qtrunc.
  assert (0 <= q)%Q as Hq.
  { eapply Qle_trans; [|exact Hn]. change 0%Q with (inject_Z 0). rewrite <- Zle_Qle. lia. }
  apply Qle_bool_iff in Hq as ->.
  rewrite <- (Qfloor_Z (Z.of_nat n)). by apply Qfloor_resp_le.
Qed.

(** A limit that is at least the length of the list cuts nothing. *)
Lemma slice0_all {A} (n : nat) (maxWords : number) (l : list A) :
  num_le (ofNat n) maxWords = true -> length l <= n -> slice0 maxWords l = l.
Proof.
  destruct maxWords as [q| | |]; cbn; try done.
  intros Hq Hl. apply Qle_bool_iff in Hq. apply Qtrunc_of_nat_le in Hq.
  destruct (Z.ltb_spec (Qtrunc q) 0); [lia|]. apply take_ge. lia.
Qed.

Section ParserTotals.

Context `{CaseMapping}.

Lemma matches_cons_ne k e l : key e <> k -> matches k (e :: l) = matches k l.
Proof.
  intros Hne. unfold matches. cbn [List.filter]. by rewrite bool_decide_eq_false_2.
Qed.

Lemma matches_cons_eq e l : matches (key e) (e :: l) = S (matches (key e) l).
Proof. unfold matches. cbn [List.filter]. by rewrite bool_decide_eq_true_2. Qed.

Lemma unseen_split seen k l :
  k ∉ seen -> unseen seen l = matches k l + unseen ({[k]} ∪ seen) l.
Proof.
  intros Hk. unfold unseen, matches. induction l as [|c l IH]; [reflexivity|].
  cbn [List.filter]. destruct (decide (key c = k)) as [Heq|Hne].
  - rewrite (bool_decide_eq_true_2 (key c = k)) by exact Heq.
    rewrite (bool_decide_eq_false_2 (key c ∈ seen)) by (by rewrite Heq).
    rewrite (bool_decide_eq_true_2 (key c ∈ {[k]} ∪ seen))
      by (rewrite elem_of_union, elem_of_singleton; by left).
    cbn [negb length]. rewrite IH. reflexivity.
  - rewrite (bool_decide_eq_false_2 (key c = k)) by exact Hne.
    destruct (decide (key c ∈ seen)) as [Hin|Hout].
    + rewrite (bool_decide_eq_true_2 (key c ∈ seen)) by exact Hin.
      rewrite (bool_decide_eq_true_2 (key c ∈ {[k]} ∪ seen))
        by (rewrite elem_of_union; by right).
      exact IH.
    + rewrite (bool_decide_eq_false_2 (key c ∈ seen)) by exact Hout.
      rewrite (bool_decide_eq_false_2 (key c ∈ {[k]} ∪ seen))
        by (rewrite elem_of_union, elem_of_singleton; tauto).
      cbn [negb length]. rewrite IH. lia.
Qed.

Lemma dedupe_total seen l :
  sum_list (List.map (fun e => matches (key e) l) (dedupe seen l)) = unseen seen l.
Proof.
  revert seen. induction l as [|e l IH]; intros seen; [reflexivity|].
  cbn [dedupe]. destruct (decide (key e ∈ seen)) as [Hin|Hout].
  - unfold unseen. cbn [List.filter]. rewrite bool_decide_eq_true_2 by exact Hin.
    cbn [negb]. fold (unseen seen l). rewrite <- IH. f_equal.
    apply List.map_ext_in. intros c Hc. apply matches_cons_ne.
    destruct (dedupe_spec seen l) as [_ Hall]. rewrite Forall_forall in Hall.
    apply list_elem_of_In in Hc. destruct (Hall c Hc) as (Hc' & _). congruence.
  - cbn [List.map sum_list]. rewrite matches_cons_eq.
    unfold unseen at 1. cbn [List.filter]. rewrite bool_decide_eq_false_2 by exact Hout.
    cbn [negb length]. fold (unseen seen l).
    rewrite (unseen_split seen (key e) l Hout), <- IH.
    assert (List.map (fun e0 => matches (key e0) (e :: l)) (dedupe ({[key e]} ∪ seen) l)
            = List.map (fun e0 => matches (key e0) l) (dedupe ({[key e]} ∪ seen) l))
      as ->; [|unfold id; lia].
    apply List.map_ext_in. intros c Hc. apply matches_cons_ne.
    destruct (dedupe_spec ({[key e]} ∪ seen) l) as [_ Hall]. rewrite Forall_forall in Hall.
    apply list_elem_of_In in Hc. destruct (Hall c Hc) as (Hc' & _).
    intros Heq. apply Hc'. rewrite elem_of_union, elem_of_singleton. by left.
Qed.

Lemma unseen_empty l : unseen ∅ l = length l.
Proof.
  unfold unseen. induction l as [|c l IH]; [reflexivity|].
  cbn [List.filter]. rewrite bool_decide_eq_false_2 by apply not_elem_of_empty.
  cbn. by rewrite IH.
Qed.

(** X2. When [maxWords] is at least the number of candidates, nothing is cut
    and the [occurrences] of the entries returned add up to the number of
    candidates: every candidate is counted exactly once. *)
Theorem parser_counts_every_candidate
    (text : jsstring) (maxWords minLength : number) (out : list VocabularyEntry) :
  parseVocabularyResponse text maxWords minLength = Ok out ->
  num_le (ofNat (length (candidates text minLength))) maxWords = true ->
  exists counts,
    List.map occurrences out = List.map (fun n => Some (ofNat n)) counts
    /\ sum_list counts = length (candidates text minLength).
Proof.
  unfold parseVocabularyResponse, candidates.
  destruct (Json.parse (jsonStr (trim text))) as [[| | | |parsed|]|];
    intros Hout Hmax; try discriminate; injection Hout as <-;
    try (exists []; split; reflexivity).
  set (l := normalized parsed minLength) in *.
  exists (List.map (fun e => matches (key e) l) (dedupe ∅ l)). split.
  - unfold dedupeAndCount. rewrite (slice0_all (length l)); [|exact Hmax|].
    + rewrite !List.map_map. apply List.map_ext_in. intros c Hc. cbn.
      destruct (dedupe_spec ∅ l) as [_ Hall]. rewrite Forall_forall in Hall.
      apply list_elem_of_In in Hc. destruct (Hall c Hc) as (_ & Hin & _).
      by rewrite (countByWord_elem _ _ Hin).
    + rewrite List.length_map. apply sublist_length, dedupe_sublist.
  - by rewrite dedupe_total, unseen_empty.
Qed.

End ParserTotals.

Lemma parser_counts_every_candidate_witness :
  exists counts,
    List.map occurrences shineEntries = List.map (fun n => Some (ofNat n)) counts
    /\ sum_list counts = length (candidates shineText (ofZ 2)).
Proof.
  apply (@parser_counts_every_candidate asciiCaseMapping shineText (ofZ 10) (ofZ 2)).
  - vm_compute. reflexivity.
  - vm_compute. reflexivity.
Defined.

Lemma normalizeSynonyms_normal_form raw l :
  normalizeSynonyms raw = Some l ->
  l <> [] /\ Forall (fun s => s <> [] /\ trim s = s) l.
Proof.
  unfold normalizeSynonyms. destruct raw as [[| | | |items|]|]; try discriminate.
  destruct (List.filter nonEmpty _) as [|s0 l0] eqn:Hl; [discriminate|].
  intros [= <-]. split; [discriminate|]. rewrite <- Hl.
  apply Forall_forall. intros s Hs.
  apply list_elem_of_In, List.filter_In in Hs as [Hs Hne].
  apply List.in_map_iff in Hs as (s' & <- & _).
  split; [|apply trim_idempotent]. intros Hnil. by rewrite Hnil in Hne.
Qed.

Lemma normalize_normal_form j c :
  normalize j = Some c ->
  trim (word c) = word c
  /\ match synonyms c with
     | None => True
     | Some l => l <> [] /\ Forall (fun s => s <> [] /\ trim s = s) l
     end.
Proof.
  unfold normalize. destruct j as [| | | | |raw]; try discriminate.
  destruct (getProp (js "word") raw) as [[| | |w| |]|]; try discriminate.
  intros [= <-]. cbn [word synonyms]. split; [apply trim_idempotent|].
  destruct (normalizeSynonyms _) as [l|] eqn:Hl; [|trivial].
  by apply normalizeSynonyms_normal_form in Hl.
Qed.

Section ParserNormalForm.

Context `{CaseMapping}.

(** X3. Every entry the parser returns has a word without surrounding white
    space, and its [synonyms], when present, is a non-empty list of non-empty
    strings without surrounding white space. *)
Theorem parser_output_normal_form
    (text : jsstring) (maxWords minLength : number) (out : list VocabularyEntry) :
  parseVocabularyResponse text maxWords minLength = Ok out ->
  Forall (fun e =>
            trim (word e) = word e
            /\ match synonyms e with
               | None => True
               | Some l => l <> [] /\ Forall (fun s => s <> [] /\ trim s = s) l
               end)
         out.
Proof.
  unfold parseVocabularyResponse.
  destruct (Json.parse (jsonStr (trim text))) as [[| | | |parsed|]|];
    intros Hout; try discriminate; injection Hout as <-; try constructor.
  destruct (dedupeAndCount_kept (normalized parsed minLength) maxWords)
    as (kept & Hsub & ->).
  apply Forall_forall. intros e He.
  apply list_elem_of_In, List.in_map_iff in He as (c & <- & Hc).
  apply list_elem_of_In in Hc. apply (elem_of_sublist _ _ _ Hc) in Hsub.
  unfold normalized in Hsub. apply list_elem_of_In, List.filter_In in Hsub as [Hsub _].
  apply list_elem_of_In, list_elem_of_omap in Hsub as (j & _ & Hj).
  by apply normalize_normal_form in Hj.
Qed.

End ParserNormalForm.

Lemma parser_output_normal_form_witness :
  Forall (fun e =>
            trim (word e) = word e
            /\ match synonyms e with
               | None => True
               | Some l => l <> [] /\ Forall (fun s => s <> [] /\ trim s = s) l
               end)
         shineEntries.
Proof.
  apply (@parser_output_normal_form asciiCaseMapping shineText (ofZ 10) (ofZ 2)).
  vm_compute. reflexivity.
Defined.

(* ===================================================================== *)
(** ** The bracket scan, when it succeeds *)
(* ===================================================================== *)

Lemma matchBracket_some t depth i n :
  n < length t ->
  (forall j, j < n -> (depth + balance (take (S j) t))%Z <> 0%Z) ->
  (depth + balance (take (S n) t))%Z = 0%Z ->
  matchBracket t depth i = Some (i + n).
Proof.
  revert depth i n. induction t as [|c t IH]; intros depth i n Hn Hnz Hz;
    [cbn in Hn; lia|].
  cbn [matchBracket].
  set (depth' := if (c =? 91)%N then _ else _).
  assert (depth' = (depth + (if (c =? 91)%N then 1 else if (c =? 93)%N then -1 else 0))%Z)
    as Hd by (subst depth'; repeat destruct (_ =? _)%N; lia).
  destruct n as [|n].
  - rewrite firstn_cons, take_0, balance_cons in Hz. change (balance []) with 0%Z in Hz.
    destruct (Z.eqb_spec depth' 0) as [_|Hne]; [f_equal; lia | lia].
  - pose proof (Hnz 0 ltac:(lia)) as H0.
    rewrite firstn_cons, take_0, balance_cons in H0. change (balance []) with 0%Z in H0.
    destruct (Z.eqb_spec depth' 0) as [Hz'|_]; [lia|].
    rewrite (IH depth' (S i) n); [f_equal; lia | cbn in Hn; lia | |].
    + intros j Hj. specialize (Hnz (S j) ltac:(lia)).
      rewrite firstn_cons, balance_cons in Hnz. lia.
    + rewrite firstn_cons, balance_cons in Hz. lia.
Qed.

Lemma indexOf_app c p r :
  indexOf c p = None -> indexOf c (p ++ c :: r) = Some (length p).
Proof.
  induction p as [|d p IH]; cbn [indexOf app length].
  - intros _. by rewrite N.eqb_refl.
  - destruct (d =? c)%N; [discriminate|].
    destruct (indexOf c p); [discriminate|]. intros _. by rewrite IH.
Qed.

(** X4. Text before the first [[] and everything after the bracket that closes
    it are ignored: when the trimmed answer is [before ++ group ++ after] with
    no [[] in [before] and [group] a bracket group, the text handed to
    [JSON.parse] is [group], whatever [after] contains. *)
Theorem jsonStr_bracket_group (before group after : jsstring) :
  indexOf 91%N before = None ->
  bracketGroup group ->
  jsonStr (before ++ group ++ after) = group.
Proof.
  intros Hbefore (Hhead & Hbal & Hpos).
  destruct group as [|c g]; [discriminate|]. injection Hhead as ->.
  unfold jsonStr. cbn [app]. rewrite (indexOf_app _ _ _ Hbefore).
  rewrite drop_app_length.
  rewrite (matchBracket_some _ 0 (length before) (length g)).
  - unfold substring.
    replace (length before + length g + 1 - length before) with (length (91%N :: g))
      by (cbn; lia).
    rewrite drop_app_length. change (91%N :: g ++ after) with ((91%N :: g) ++ after).
    by rewrite take_app_length.
  - cbn. rewrite length_app. lia.
  - intros j Hj. rewrite Z.add_0_l.
    change (91%N :: g ++ after) with ((91%N :: g) ++ after).
    rewrite take_app_le by (cbn; lia). apply Hpos. cbn. lia.
  - rewrite Z.add_0_l. change (91%N :: g ++ after) with ((91%N :: g) ++ after).
    change (S (length g)) with (length (91%N :: g)). by rewrite take_app_length.
Qed.

Lemma bracketGroup_check g : bracketGroupb g = true -> bracketGroup g.
Proof.
  unfold bracketGroupb, bracketGroup. rewrite !andb_true_iff, bool_decide_eq_true.
  intros [[Hh Hb] Hall]. split_and!; [exact Hh | by apply Z.eqb_eq |].
  intros k Hk. rewrite List.forallb_forall in Hall.
  specialize (Hall k). rewrite negb_true_iff, Z.eqb_neq in Hall.
  apply Hall, List.in_seq. lia.
Qed.

Lemma jsonStr_bracket_group_witness :
  jsonStr (proseBefore ++ groupText ++ proseAfter) = groupText.
Proof.
  apply (jsonStr_bracket_group proseBefore groupText proseAfter).
  - vm_compute. reflexivity.
  - apply bracketGroup_check. vm_compute. reflexivity.
Defined.

(* ===================================================================== *)
(** ** More on the fallback extractor *)
(* ===================================================================== *)

Lemma setOrder_spec seen l :
  NoDup (setOrder seen l)
  /\ Forall (fun w => (w ∉ seen) /\ (w ∈ l)) (setOrder seen l).
Proof.
  revert seen. induction l as [|w l IH]; intros seen; cbn [setOrder].
  - split; constructor.
  - destruct (decide (w ∈ seen)) as [Hin|Hout].
    + destruct (IH seen) as [Hnd Hall]. split; [exact Hnd|].
      eapply Forall_impl; [exact Hall|]. cbn beta. intros x [Hx Hl]. split; [done | by right].
    + destruct (IH ({[w]} ∪ seen)) as [Hnd Hall]. rewrite Forall_forall in Hall. split.
      * apply NoDup_cons. split; [|exact Hnd]. intros Hw.
        destruct (Hall w Hw) as [Hns _]. apply Hns.
        rewrite elem_of_union, elem_of_singleton. by left.
      * constructor; [split; [done | by left]|].
        apply Forall_forall. intros x Hx. destruct (Hall x Hx) as [Hns Hl].
        rewrite elem_of_union, elem_of_singleton in Hns. split; [tauto | by right].
Qed.

(** The pieces of [split(/\s+/)] are made of the code units of the text that
    are not white space. *)
Lemma splitWs_pieces (P : N -> Prop) s cur inWs :
  Forall P cur ->
  Forall (fun c => isWhiteSpace c = false -> P c) s ->
  Forall (Forall P) (splitWs s cur inWs).
Proof.
  intros Hcur Hs. revert cur inWs Hcur.
  induction Hs as [|c s Hc _ IH]; intros cur inWs Hcur; cbn [splitWs].
  - constructor; [by apply Forall_rev | constructor].
  - destruct (isWhiteSpace c) eqn:Hws.
    + destruct inWs; [by apply IH|]. constructor; [by apply Forall_rev | by apply IH].
    + apply IH. constructor; [by apply Hc | exact Hcur].
Qed.

Lemma replaceNonWord_chars s :
  Forall (fun c => isWhiteSpace c = false -> isWordChar c = true) (replaceNonWord s).
Proof.
  unfold replaceNonWord. apply Forall_forall. intros c Hc.
  apply list_elem_of_In, List.in_map_iff in Hc as (d & <- & _).
  destruct (isWordChar d) eqn:Hw; cbn [orb negb]; [done|].
  destruct (isWhiteSpace d) eqn:Hs; cbn [negb]; [congruence|]. intros Hsp.
  by vm_compute in Hsp.
Qed.

Section FallbackWords.

Context `{CaseMapping}.

(** X5. The words of the fallback vocabulary are pairwise distinct; each has
    at least [minLength] code units, is not a stop word and is made of letters,
    digits and underscores only; and there are at most [maxWords] of them when
    [maxWords >= 0]. *)
Theorem fallback_words (lyrics : jsstring) (maxWords minLength : number) :
  let ws := List.map word (getFallbackVocabulary lyrics maxWords minLength) in
  NoDup ws
  /\ Forall (fun w =>
               num_ge (ofNat (length w)) minLength = true
               /\ isStopWord w = false
               /\ Forall (fun c => isWordChar c = true) w)
            ws
  /\ (num_ge maxWords (ofZ 0) = true -> num_le (ofNat (length ws)) maxWords = true).
Proof.
  cbv zeta. unfold getFallbackVocabulary.
  rewrite List.map_map. cbn [word fallbackEntry]. rewrite List.map_id.
  set (words := List.filter _ (List.filter _ _)).
  destruct (setOrder_spec ∅ words) as [Hnd Hall].
  split_and!; [| |apply slice0_length].
  - destruct (slice0_take maxWords (setOrder ∅ words)) as [k ->].
    rewrite <- (take_drop k (setOrder ∅ words)) in Hnd. apply NoDup_app in Hnd. tauto.
  - destruct (slice0_take maxWords (setOrder ∅ words)) as [k ->].
    apply Forall_take. eapply Forall_impl; [exact Hall|]. cbn beta.
    intros w [_ Hw]. subst words.
    apply list_elem_of_In, List.filter_In in Hw as [Hw Hstop].
    apply List.filter_In in Hw as [Hw Hlen]. apply negb_true_iff in Hstop.
    split_and!; [exact Hlen | exact Hstop |].
    pose proof (splitWs_pieces (fun c => isWordChar c = true)
                  (replaceNonWord (toLowerCase lyrics)) [] false
                  ltac:(constructor) (replaceNonWord_chars _)) as Hpieces.
    rewrite Forall_forall in Hpieces. by apply Hpieces, list_elem_of_In.
Qed.

End FallbackWords.

(* ===================================================================== *)
(** ** What the orchestrator returns *)
(* ===================================================================== *)

Section OrchestratorOutput.

Context `{CaseMapping} `{NumberFormat}.

Lemma dedupeAndCount_counted l maxWords : Forall counted (dedupeAndCount l maxWords).
Proof.
  destruct (dedupeAndCount_kept l maxWords) as (kept & Hsub & ->).
  apply Forall_forall. intros e He.
  apply list_elem_of_In, List.in_map_iff in He as (c & <- & Hc).
  apply list_elem_of_In in Hc. apply (elem_of_sublist _ _ _ Hc) in Hsub.
  exists (matches (key c) l). split; [reflexivity|].
  pose proof (matches_pos _ _ Hsub). lia.
Qed.

Lemma parseVocabularyResponse_output text maxWords minLength out :
  parseVocabularyResponse text maxWords minLength = Ok out ->
  Forall counted out
  /\ (num_ge maxWords (ofZ 0) = true -> num_le (ofNat (length out)) maxWords = true).
Proof.
  unfold parseVocabularyResponse.
  destruct (Json.parse _) as [[| | | |parsed|]|]; intros Hout;
    try discriminate; injection Hout as <-.
  1-4, 6: split; [constructor | destruct maxWords; done].
  split; [apply dedupeAndCount_counted | apply slice0_length].
Qed.

Lemma structuredEntries_output l maxWords minLength :
  Forall counted (structuredEntries l maxWords minLength)
  /\ (num_ge maxWords (ofZ 0) = true ->
      num_le (ofNat (length (structuredEntries l maxWords minLength))) maxWords = true).
Proof.
  destruct (structuredEntries_facts l maxWords minLength) as [Hall Hlen].
  split; [|exact Hlen]. eapply Forall_impl; [exact Hall|]. cbn beta.
  intros e [He _]. exists 1. by split.
Qed.

Lemma getFallbackVocabulary_output lyrics maxWords minLength :
  Forall counted (getFallbackVocabulary lyrics maxWords minLength)
  /\ (num_ge maxWords (ofZ 0) = true ->
      num_le (ofNat (length (getFallbackVocabulary lyrics maxWords minLength))) maxWords
      = true).
Proof.
  unfold getFallbackVocabulary. split.
  - apply Forall_forall. intros e He.
    apply list_elem_of_In, List.in_map_iff in He as (w & <- & _). exists 1. by split.
  - rewrite List.length_map. apply slice0_length.
Qed.

Lemma orchestrator_missing_key lyrics options env client :
  keyMissing env ->
  createVocabularyFromLyrics lyrics options env client = ([], Throw MissingApiKey).
Proof.
  unfold keyMissing, createVocabularyFromLyrics.
  destruct (GEMINI_API_KEY env) as [[|c k]|]; intros [|]; done.
Qed.

(** The three ways in which [createVocabularyFromLyrics] answers. *)
Lemma orchestrator_result_cases lyrics options env client out :
  snd (createVocabularyFromLyrics lyrics options env client) = Ok out ->
  let maxWords' := default (ofZ 30) (maxWords options) in
  let minLength' := default (ofZ 2) (minLength options) in
  (exists text, parseVocabularyResponse text maxWords' minLength' = Ok out)
  \/ (exists l, out = structuredEntries l maxWords' minLength')
  \/ out = getFallbackVocabulary lyrics maxWords' minLength'.
Proof.
  unfold createVocabularyFromLyrics.
  destruct (GEMINI_API_KEY env) as [[|c k]|]; try discriminate.
  unfold streamingAttempt. cbv zeta.
  destruct (Gemini.generateText client _ _) as [chunks [e|]].
  - destruct (Gemini.generateStructured client _ _) as [res|e2]; intros [= <-]; eauto.
  - destruct (parseVocabularyResponse _ _ _) as [entries|e] eqn:Hparse.
    + intros [= <-]. eauto.
    + destruct (Gemini.generateStructured client _ _) as [res|e2]; intros [= <-]; eauto.
Qed.

(** X6. Whichever of the three stages answers, every entry that
    [createVocabularyFromLyrics] returns carries an [occurrences] count that
    is a whole number [>= 1], and when the word limit in force (the option, or
    30) is [>= 0] at most that many entries are returned. *)
Theorem orchestrator_output
    (lyrics : jsstring) (options : VocabularyOptions) (env : VocabularyEnv)
    (client : Gemini.Client) (out : list VocabularyEntry) :
  snd (createVocabularyFromLyrics lyrics options env client) = Ok out ->
  Forall counted out
  /\ (num_ge (default (ofZ 30) (maxWords options)) (ofZ 0) = true ->
      num_le (ofNat (length out)) (default (ofZ 30) (maxWords options)) = true).
Proof.
  intros Hout.
  destruct (orchestrator_result_cases _ _ _ _ _ Hout) as [[text Hp]|[[l ->]| ->]].
  - by apply parseVocabularyResponse_output in Hp.
  - apply structuredEntries_output.
  - apply getFallbackVocabulary_output.
Qed.

Lemma limit_200 (n : nat) (q : Q) :
  (1 <= q <= 200)%Q ->
  (num_ge (default (ofZ 30) (Some (Fin q))) (ofZ 0) = true ->
   num_le (ofNat n) (default (ofZ 30) (Some (Fin q))) = true) ->
  n <= 200.
Proof.
  intros [Hlo Hhi] Hl. cbn [default from_option] in Hl. unfold id in Hl.
  assert (Qle_bool (inject_Z (Z.of_nat n)) q = true) as Hle.
  { apply Hl. unfold num_ge, num_le, ofZ. apply Qle_bool_iff.
    eapply Qle_trans; [|exact Hlo]. discriminate. }
  apply Qle_bool_iff in Hle.
  assert (inject_Z (Z.of_nat n) <= inject_Z 200)%Q as Hz
    by (eapply Qle_trans; [exact Hle | exact Hhi]).
  rewrite <- Zle_Qle in Hz. lia.
Qed.

Lemma rowToOptions_maxWords row :
  exists q, maxWords (rowToOptions row) = Some (Fin q) /\ (1 <= q <= 200)%Q.
Proof.
  unfold rowToOptions. cbn [maxWords].
  destruct (_ && _ && _) eqn:Ht.
  - apply inRange_test in Ht. destruct (max_words row) as [q| | |]; try done.
    exists q. split; [reflexivity | exact Ht].
  - eexists. split; [reflexivity|]. split; vm_compute; discriminate.
Qed.

(** X7. Through [createVocabularyFromLyricsForUser] the word limit is always
    one the settings resolver accepts, so whatever the stored settings and
    whatever the model answers, at most 200 entries are returned, each with an
    [occurrences] count that is a whole number [>= 1]. *)
Theorem for_user_output {S : Type}
    (lyrics userId : jsstring) (env : VocabularyEnvWithDb S) (client : Gemini.Client)
    (title : option jsstring) (s s' : S) (calls : list call)
    (out : list VocabularyEntry) :
  createVocabularyFromLyricsForUser lyrics userId env client title s
  = (calls, s', Ok out) ->
  length out <= 200 /\ Forall counted out.
Proof.
  unfold createVocabularyFromLyricsForUser, getVocabularyOptionsForUser.
  destruct (default _ (getVocabularySettings env) userId s) as [found|e];
    cbn [mbind result_bind mret result_ret]; [|discriminate].
  set (options := match found with Some r => rowToOptions r | None => _ end).
  assert (exists q, maxWords options = Some (Fin q) /\ (1 <= q <= 200)%Q) as (q & Hq & Hr).
  { subst options. destruct found as [row|]; [apply rowToOptions_maxWords|].
    eexists. split; [reflexivity|]. split; vm_compute; discriminate. }
  destruct (createVocabularyFromLyrics lyrics options (env_base env) client)
    as [calls0 [entries|e]] eqn:Hrun; [|discriminate].
  assert (snd (createVocabularyFromLyrics lyrics options (env_base env) client)
          = Ok entries) as Hsnd by (by rewrite Hrun).
  intros Hfinal.
  assert (out = entries) as ->.
  { destruct (saveVocabularyList env) as [save|]; [|by injection Hfinal as _ _ <-].
    destruct (save _ s) as [s1 [e|]]; [discriminate | by injection Hfinal as _ _ <-]. }
  destruct (orchestrator_result_cases _ _ _ _ _ Hsnd) as [[text Hp]|[[l ->]| ->]].
  - apply parseVocabularyResponse_output in Hp as [Hc Hl]. split; [|exact Hc].
    rewrite Hq in Hl. rewrite ?Hq. exact (limit_200 _ q Hr Hl).
  - destruct (structuredEntries_output l (default (ofZ 30) (maxWords options))
                (default (ofZ 2) (minLength options))) as [Hc Hl].
    split; [|exact Hc].
    rewrite Hq in Hl. rewrite ?Hq. exact (limit_200 _ q Hr Hl).
  - destruct (getFallbackVocabulary_output lyrics (default (ofZ 30) (maxWords options))
                (default (ofZ 2) (minLength options))) as [Hc Hl].
    split; [|exact Hc].
    rewrite Hq in Hl. rewrite ?Hq. exact (limit_200 _ q Hr Hl).
Qed.

(** X8. [createVocabularyFromLyricsForUser] saves what it returns: when it
    returns entries and a save function is injected, that function has run
    once, on the user, the very entries returned and the title, and did not
    throw; when it throws, either nothing was saved or the save itself threw
    that error; and with a missing key it throws before any call to the model
    and leaves the store as it was. *)
Theorem for_user_persistence {S : Type}
    (lyrics userId : jsstring) (env : VocabularyEnvWithDb S) (client : Gemini.Client)
    (title : option jsstring) (s : S) :
  let '(calls, s', r) :=
    createVocabularyFromLyricsForUser lyrics userId env client title s in
  let payload entries :=
    {| payload_userId := userId; payload_entries := entries; payload_title := title |} in
  (forall out, r = Ok out ->
     match saveVocabularyList env with
     | None => s' = s
     | Some save => save (payload out) s = (s', None)
     end)
  /\ (forall e, r = Throw e ->
        s' = s
        \/ exists save out,
             saveVocabularyList env = Some save /\ save (payload out) s = (s', Some e))
  /\ (keyMissing (env_base env) -> s' = s /\ calls = [] /\ isThrow r = true).
Proof.
  unfold createVocabularyFromLyricsForUser.
  destruct (getVocabularyOptionsForUser _ _) as [options|e0].
  2: { split_and!; [discriminate | by left | done]. }
  pose proof (orchestrator_missing_key lyrics options (env_base env) client) as Hkey.
  destruct (createVocabularyFromLyrics lyrics options (env_base env) client)
    as [calls [entries|e1]].
  2: { split_and!; [discriminate | by left |].
       intros Hk. specialize (Hkey Hk). by injection Hkey as -> _. }
  destruct (saveVocabularyList env) as [save|].
  2: { split_and!; [by intros out [= <-] | discriminate |].
       intros Hk. specialize (Hkey Hk). discriminate. }
  destruct (save _ s) as [s1 [e2|]] eqn:Hsave.
  - split_and!; [discriminate | |intros Hk; specialize (Hkey Hk); discriminate].
    intros e [= <-]. right. by exists save, entries.
  - split_and!; [by intros out [= <-] | discriminate |].
    intros Hk. specialize (Hkey Hk). discriminate.
Qed.

End OrchestratorOutput.

Lemma orchestrator_output_witness :
  Forall counted shineEntries
  /\ num_le (ofNat (length shineEntries)) (ofZ 30) = true.
Proof.
  destruct (@orchestrator_output asciiCaseMapping {| numberToString := fun _ => [] |}
              (js "la la") DEFAULT_VOCABULARY_OPTIONS sampleEnv shineClient shineEntries)
    as [Hc Hl].
  - vm_compute. reflexivity.
  - split; [exact Hc | apply Hl; reflexivity].
Defined.

Lemma for_user_output_witness :
  length shineEntries <= 200 /\ Forall counted shineEntries.
Proof.
  apply (@for_user_output asciiCaseMapping {| numberToString := fun _ => [] |}
           (list SaveVocabularyPayload) (js "la la") (js "u1") savingEnv shineClient
           (Some (js "My list")) []
           [{| payload_userId := js "u1"; payload_entries := shineEntries;
               payload_title := Some (js "My list") |}]
           [StreamCall
              (@buildVocabularyPrompt {| numberToString := fun _ => [] |} (js "la la")
                 (rowToOptions sampleRow))]).
  vm_compute. reflexivity.
Defined.

(* ===================================================================== *)
(** ** More on the lyrics extraction *)
(* ===================================================================== *)

Lemma lyricsPart_trimmed g c :
  Genius.lyricsPart g = Ok (Some c) -> c <> [] /\ exists x, c = trim x.
Proof.
  unfold Genius.lyricsPart.
  repeat (destruct (Genius.replace _ _) as [?content|?];
          cbn [mbind result_bind mret result_ret]; [|discriminate]).
  destruct (nonEmpty (trim _)) eqn:Hne; intros [= <-].
  split; [|by eexists]. intros Hnil. by rewrite Hnil in Hne.
Qed.

Lemma lyricsParts_trimmed groups parts :
  Genius.lyricsParts groups = Ok parts ->
  Forall (fun c => c <> [] /\ exists x, c = trim x) parts.
Proof.
  revert parts. induction groups as [|g groups IH]; intros parts; cbn [Genius.lyricsParts].
  - intros [= <-]. constructor.
  - destruct (Genius.lyricsPart g) as [part|] eqn:Hg;
      cbn [mbind result_bind mret result_ret]; [|discriminate].
    destruct (Genius.lyricsParts groups) as [rest|];
      cbn [mbind result_bind mret result_ret]; [|discriminate].
    intros [= <-]. specialize (IH rest eq_refl).
    destruct part as [c|]; [|exact IH]. constructor; [|exact IH].
    by apply lyricsPart_trimmed in Hg.
Qed.

Lemma join_cons sep l r : r <> [] -> join sep (l :: r) = l ++ sep ++ join sep r.
Proof. by destruct r. Qed.

Lemma join_head sep parts c :
  Forall (fun p => p <> []) parts ->
  head (join sep parts) = Some c -> exists p r, parts = p :: r /\ head p = Some c.
Proof.
  destruct 1 as [|p r Hp _]; [discriminate|].
  intros Hh. exists p, r. split; [reflexivity|].
  destruct p as [|d p]; [done|]. destruct r; exact Hh.
Qed.

Lemma join_last sep parts c :
  Forall (fun p => p <> []) parts ->
  last (join sep parts) = Some c -> exists p, last parts = Some p /\ last p = Some c.
Proof.
  induction 1 as [|p r Hp Hr IH]; [discriminate|].
  destruct r as [|p' r'].
  - intros Hl. by exists p.
  - rewrite join_cons by discriminate. rewrite !last_app.
    destruct (last (join sep (p' :: r'))) as [d|] eqn:Hd.
    + intros [= <-]. destruct (IH eq_refl) as (q & Hq & Hc). exists q.
      split; [|exact Hc]. by rewrite last_cons, Hq.
    + exfalso. inversion Hr as [|? ? Hp' _]; subst.
      destruct p' as [|d p']; [done|].
      assert (join sep ((d :: p') :: r') <> []) as Hne by (by destruct r').
      by apply last_is_Some in Hne as [? ?]; congruence.
Qed.

(** X9. When [extractLyricsFromHtml] returns, the lyrics are not empty and
    have no white space at either end. *)
Theorem lyrics_not_empty_and_trimmed (html lyrics : jsstring) :
  Genius.extractLyricsFromHtml html = Ok lyrics ->
  lyrics <> [] /\ trim lyrics = lyrics.
Proof.
  unfold Genius.extractLyricsFromHtml.
  destruct (Genius.lyricsParts _) as [parts|] eqn:Hparts;
    cbn [mbind result_bind]; [|discriminate].
  apply lyricsParts_trimmed in Hparts.
  destruct parts as [|p r]; [discriminate|]. intros Heq.
  assert (lyrics = join [10%N; 10%N] (p :: r)) as ->
    by (injection Heq as Heq; symmetry; exact Heq).
  clear Heq.
  assert (Forall (fun c : jsstring => c <> []) (p :: r)) as Hne
    by (eapply Forall_impl; [exact Hparts|]; by intros ? [? _]).
  split.
  - inversion Hne as [|? ? Hp _]; subst. destruct p; [done|]. by destruct r.
  - apply trim_clean.
    + intros c Hc. destruct (join_head _ _ _ Hne Hc) as (p0 & r0 & [= <- <-] & Hh).
      inversion Hparts as [|? ? [_ [x Hx]] _]; subst.
      by apply (proj1 (trim_ends x c)).
    + intros c Hc. destruct (join_last _ _ _ Hne Hc) as (q & Hq & Hl).
      rewrite Forall_forall in Hparts.
      destruct (Hparts q) as [_ [x ->]]; [by apply last_Some_elem_of|].
      by apply (proj2 (trim_ends x c)).
Qed.

Lemma lyrics_not_empty_and_trimmed_witness :
  js "Hello" <> [] /\ trim (js "Hello") = js "Hello".
Proof.
  apply (lyrics_not_empty_and_trimmed
           (jsq "<div data-lyrics-container='true'><p>&#72;&#101;&#108;&#108;&#111;</p></div>")).
  vm_compute. reflexivity.
Defined.

Lemma startsWith_take p q t : startsWith p (take q t) = true -> startsWith p t = true.
Proof.
  revert q t. induction p as [|a p IH]; intros q t; [reflexivity|].
  destruct q as [|q], t as [|b t]; cbn; try discriminate.
  rewrite !andb_true_iff. intros [Hab Hp]. split; [exact Hab | by apply (IH q)].
Qed.

Lemma findSub_None p s : Genius.findSub p s = None -> forall k, startsWith p (drop k s) = false.
Proof.
  induction s as [|c s IH]; cbn [Genius.findSub].
  - destruct (startsWith p []) eqn:Hp; [discriminate|]. intros _ k. by rewrite drop_nil.
  - destruct (startsWith p (c :: s)) eqn:Hp; [discriminate|].
    destruct (Genius.findSub p s); [discriminate|]. intros _ [|k]; [exact Hp|].
    by apply IH.
Qed.

Lemma findSub_Some p s j :
  Genius.findSub p s = Some j -> startsWith p (drop j s) = true.
Proof.
  revert j. induction s as [|c s IH]; intros j; cbn [Genius.findSub].
  - destruct (startsWith p []) eqn:Hp; [|discriminate]. by intros [= <-].
  - destruct (startsWith p (c :: s)) eqn:Hp; [by intros [= <-]|].
    destruct (Genius.findSub p s) as [i|]; [|discriminate]. intros [= <-].
    by apply IH.
Qed.

(** A match of the container pattern contains the attribute. *)
Lemma matchContainer_attribute s r :
  Genius.matchContainer s = Some r ->
  exists k, startsWith (jsq "data-lyrics-container='true'") (drop k s) = true.
Proof.
  unfold Genius.matchContainer. destruct (startsWith (js "<div") s); [|discriminate].
  destruct (indexOf 62%N (drop 4 s)) as [q|]; cbn [mbind option_bind]; [|discriminate].
  destruct (Genius.findSub _ (take q (drop 4 s))) as [j|] eqn:Hj;
    cbn [mbind option_bind]; [|discriminate].
  intros _. apply findSub_Some in Hj. exists (4 + j).
  rewrite <- drop_drop. apply (startsWith_take _ (q - j)).
  rewrite take_drop_commute. destruct (decide (j <= q)) as [Hle|Hgt].
  - by replace (j + (q - j)) with q by lia.
  - rewrite drop_ge in Hj; [by vm_compute in Hj|]. rewrite length_take. lia.
Qed.

Lemma matchAll_none fuel s :
  (forall k, Genius.matchContainer (drop k s) = None) -> Genius.matchAll fuel s = [].
Proof.
  revert s. induction fuel as [|fuel IH]; intros s Hs; [reflexivity|].
  destruct s as [|c s]; [reflexivity|]. cbn [Genius.matchAll].
  pose proof (Hs 0) as H0. cbn [drop] in H0. rewrite H0.
  apply IH. intros k. apply (Hs (S k)).
Qed.

(** X10. A page in which the text [data-lyrics-container="true"] does not
    occur has no lyrics region: [extractLyricsFromHtml] throws "Could not
    extract lyrics from page". *)
Theorem lyrics_need_the_marker (html : jsstring) :
  Genius.findSub (jsq "data-lyrics-container='true'") html = None ->
  Genius.extractLyricsFromHtml html = Throw NoLyrics.
Proof.
  intros Hnone. unfold Genius.extractLyricsFromHtml.
  rewrite matchAll_none; [reflexivity|].
  intros k. destruct (Genius.matchContainer (drop k html)) as [r|] eqn:Hm; [|reflexivity].
  apply matchContainer_attribute in Hm as [j Hj]. rewrite drop_drop in Hj.
  by rewrite (findSub_None _ _ Hnone) in Hj.
Qed.

Lemma lyrics_need_the_marker_witness :
  Genius.extractLyricsFromHtml (jsq "<div class='lyrics'>la la la</div>") = Throw NoLyrics.
Proof.
  apply lyrics_need_the_marker. vm_compute. reflexivity.
Defined.

Lemma asciiLower_low c x : (x < 65)%N -> asciiLower c = x -> c = x.
Proof.
  unfold asciiLower. intros Hx.
  destruct (N.leb_spec 65 c), (N.leb_spec c 90); cbn [andb]; lia.
Qed.

Lemma startsWithCI_guarded x p c r :
  (x = 60 \/ x = 38)%N -> isPlain c -> Genius.startsWithCI (x :: p) (c :: r) = false.
Proof.
  intros Hx [H60 H38]. cbn [Genius.startsWithCI].
  destruct (N.eqb_spec x (asciiLower c)) as [Heq|]; [|reflexivity].
  exfalso. symmetry in Heq. apply asciiLower_low in Heq; lia.
Qed.

Lemma guarded_brTag : guarded Genius.brTag.
Proof.
  intros c r Hc. unfold Genius.brTag.
  change (js "<br") with (60%N :: js "br"). by rewrite startsWithCI_guarded; [|left|].
Qed.

Lemma guarded_anyTag : guarded Genius.anyTag.
Proof.
  intros c r [H60 _]. unfold Genius.anyTag.
  by destruct (N.eqb_spec c 60).
Qed.

Lemma guarded_hexReference : guarded Genius.hexReference.
Proof.
  intros c r Hc. unfold Genius.hexReference.
  change (js "&#x") with (38%N :: js "#x"). by rewrite startsWithCI_guarded; [|right|].
Qed.

Lemma guarded_decimalReference : guarded Genius.decimalReference.
Proof.
  intros c r [_ H38]. unfold Genius.decimalReference.
  change (js "&#") with (38%N :: js "#"). cbn [startsWith].
  by destruct (N.eqb_spec 38 c); [congruence|].
Qed.

Lemma guarded_literal p replacement :
  head p = Some 38%N -> guarded (Genius.literal p replacement).
Proof.
  intros Hp c r Hc. unfold Genius.literal. destruct p as [|x p]; [discriminate|].
  injection Hp as ->. by rewrite startsWithCI_guarded; [|right|].
Qed.

Lemma guarded_aposReference : guarded Genius.aposReference.
Proof.
  intros c r Hc. unfold Genius.aposReference.
  change (js "&apos;") with (38%N :: js "apos;").
  change (js "&#x27;") with (38%N :: js "#x27;").
  change (js "&#39;") with (38%N :: js "#39;").
  by rewrite !startsWithCI_guarded; [|right| |right| |right|].
Qed.

(** A replacement leaves plain text as it is. *)
Lemma replace_plain m s : guarded m -> Forall isPlain s -> Genius.replace m s = Ok s.
Proof.
  intros Hm Hs. unfold Genius.replace. generalize (S (length s)). intros fuel.
  revert fuel. induction Hs as [|c s Hc _ IH]; intros [|fuel]; try reflexivity.
  cbn [Genius.replaceAll]. rewrite (Hm c s Hc), IH. reflexivity.
Qed.

Lemma lyricsPart_plain s :
  Forall isPlain s ->
  Genius.lyricsPart s = Ok (if nonEmpty (trim s) then Some (trim s) else None).
Proof.
  intros Hs. unfold Genius.lyricsPart.
  rewrite (replace_plain _ _ guarded_brTag Hs). cbn [mbind result_bind].
  rewrite (replace_plain _ _ guarded_anyTag Hs). cbn [mbind result_bind].
  rewrite (replace_plain _ _ guarded_hexReference Hs). cbn [mbind result_bind].
  rewrite (replace_plain _ _ guarded_decimalReference Hs). cbn [mbind result_bind].
  rewrite (replace_plain _ _ (guarded_literal (js "&amp;") _ eq_refl) Hs).
  cbn [mbind result_bind].
  rewrite (replace_plain _ _ (guarded_literal (js "&lt;") _ eq_refl) Hs).
  cbn [mbind result_bind].
  rewrite (replace_plain _ _ (guarded_literal (js "&gt;") _ eq_refl) Hs).
  cbn [mbind result_bind].
  rewrite (replace_plain _ _ (guarded_literal (js "&quot;") _ eq_refl) Hs).
  cbn [mbind result_bind].
  rewrite (replace_plain _ _ guarded_aposReference Hs). reflexivity.
Qed.

Lemma findSub_divClose s :
  Forall isPlain s -> Genius.findSub divClose (s ++ divClose) = Some (length s).
Proof.
  induction 1 as [|c s [H60 _] _ IH]; [reflexivity|].
  cbn [app Genius.findSub length]. change divClose with (60%N :: js "/div>").
  cbn [startsWith]. destruct (N.eqb_spec 60 c); [congruence|]. cbn [andb].
  change (60%N :: js "/div>") with divClose. by rewrite IH.
Qed.

Lemma matchContainer_open body :
  Genius.matchContainer (containerOpen ++ body)
  = (k ← Genius.findSub divClose body; Some (take k body, drop (k + 6) body)).
Proof. vm_compute. reflexivity. Qed.

Lemma matchAll_open fuel body :
  Genius.matchAll (S fuel) (containerOpen ++ body)
  = match Genius.matchContainer (containerOpen ++ body) with
    | Some (group, rest) => group :: Genius.matchAll fuel rest
    | None => Genius.matchAll fuel (drop 1 (containerOpen ++ body))
    end.
Proof. vm_compute. reflexivity. Qed.

(** X11. A lyrics region whose text has neither [<] nor [&] is returned as
    it is, trimmed; if nothing is left after trimming the extraction throws
    "Could not extract lyrics from page". *)
Theorem plain_region_unchanged (text : jsstring) :
  Forall isPlain text ->
  Genius.extractLyricsFromHtml (containerOpen ++ text ++ divClose)
  = if nonEmpty (trim text) then Ok (trim text) else Throw NoLyrics.
Proof.
  intros Hplain. unfold Genius.extractLyricsFromHtml.
  assert (Genius.matchAll (length (containerOpen ++ text ++ divClose))
            (containerOpen ++ text ++ divClose) = [text]) as ->.
  { rewrite length_app. change (length containerOpen) with (S 33).
    rewrite Nat.add_succ_l. generalize (33 + length (text ++ divClose)). intros fuel.
    rewrite matchAll_open.
    rewrite matchContainer_open, (findSub_divClose _ Hplain). cbn [mbind option_bind].
    rewrite take_app_length.
    replace (drop (length text + 6) (text ++ divClose)) with (@nil N).
    - by destruct fuel.
    - symmetry. apply drop_ge. rewrite length_app. change (length divClose) with 6. lia. }
  cbn [Genius.lyricsParts]. rewrite (lyricsPart_plain _ Hplain).
  cbn [mbind result_bind mret result_ret].
  by destruct (nonEmpty (trim text)).
Qed.

Lemma plain_region_unchanged_witness :
  Genius.extractLyricsFromHtml (containerOpen ++ js "  We shine bright  " ++ divClose)
  = Ok (js "We shine bright").
Proof.
  apply (plain_region_unchanged (js "  We shine bright  ")).
  vm_compute. repeat (constructor; [split; discriminate|]). constructor.
Defined.

(* ===================================================================== *)
(** ** More on the word upserts *)
(* ===================================================================== *)

Module StoreIds.

Import Store StoreSpec StoreMore StoreFacts.

Section Rows.

Variable uuid : nat -> jsstring.
Variables (userId w : jsstring) (m t a : option jsstring) (occ : number).

Local Abbreviation bumped := (bumpRow occ m t a userId w).






End Rows.

Section Runs.

Variable uuid : nat -> jsstring.
Hypothesis uuid_nonempty : forall n, uuid n <> [].

Variable userId : jsstring.
















End Runs.






End StoreIds.






(* ===================================================================== *)
(** ** The synonym insertions *)
(* ===================================================================== *)

Module SynonymFacts.

Import Store StoreSpec StoreMore StoreFacts.

Local Abbreviation insertAll i l db :=
  (fold_left (fun d s => insertSynonymOrIgnore i s d) l db).















End SynonymFacts.

(* ===================================================================== *)
(** ** Saving a vocabulary list *)
(* ===================================================================== *)

Module SaveFacts.

Import StoreSpec StoreMore StoreFacts StoreIds SynonymFacts.














End SaveFacts.


Example save_vocabulary_list_sample :
  (d ← StoreMore.d1SaveVocabularyList StoreSpec.sampleUuid (fun _ => js "[...]")
         StoreMore.sampleListsDb (js "u1") [StoreMore.glowEntry] (Some (js "pop"));
   mret (Store.word_synonyms (StoreMore.words d),
         List.map (fun r => (Store.id r, Store.word r, Store.count r))
           (Store.user_words (StoreMore.words d))))
  = Ok ([(js "w0", js "hi"); (js "uu", js "shine"); (js "uu", js "gleam")],
        [(js "w0", js "hello", ofZ 4); (js "uu", js "glow", ofZ 2)]).
Proof. vm_compute. reflexivity. Qed.

(* ===================================================================== *)
(** ** The two ways of saving a list, and the generate route *)
(* ===================================================================== *)

Module StoreSongs.

Import Store StoreSpec StoreMore StoreFacts StoreIds.

Section Songs.

Variable uuid : nat -> jsstring.
Variable userId : jsstring.
Variables T A : jsstring.

(** The row of (user, word) carries the song [T] by [A]. *)
Local Abbreviation carries db w :=
  (exists r, head (selectUserWord db userId w) = Some r
             /\ song_title r = Some T /\ song_artist r = Some A).



End Songs.

End StoreSongs.

Module RouteFacts.

Import StoreSpec StoreMore StoreFacts StoreIds SynonymFacts SaveFacts StoreSongs Route.





Section Generate.

Context `{CaseMapping} `{NumberFormat}.




End Generate.

End RouteFacts.



Example generate_saves_words_sample :
  let '(_, s, r) :=
    @createVocabularyFromLyricsForUser asciiCaseMapping
      {| numberToString := fun _ => [] |} Route.Tracked (js "la la") (js "u1")
      (Route.generateEnv StoreSpec.sampleUuid (fun _ => js "[...]") (Some (js "secret"))
         (js "Diamonds") (js "Rihanna"))
      shineClient (Some (Route.listTitle (Some (js "  ")) (js "Diamonds") (js "Rihanna")))
      (Route.Known Route.sampleAppDb) in
  r = Ok shineEntries
  /\ match s with
     | Route.Known db =>
         List.map (fun r => (Store.word r, Store.count r, Store.song_title r))
           (Store.user_words (StoreMore.words (Route.lists db)))
         = [(js "hello", ofZ 4, None); (js "shine", ofZ 2, Some (js "Diamonds"));
            (js "forever", ofZ 1, Some (js "Diamonds"))]
         /\ List.map StoreMore.list_title (StoreMore.vocabulary_lists (Route.lists db))
            = [Some (js "Diamonds - Rihanna")]
     | Route.Unfollowed => False
     end.
Proof. vm_compute. split; [reflexivity | split; reflexivity]. Qed.

(* ===================================================================== *)
(** ** Users and settings *)
(* ===================================================================== *)

Module UsersFacts.

Import Users.

Lemma head_filter_None {A} (f : A -> bool) l :
  head (List.filter f l) = None -> List.filter f l = [] /\ existsb f l = false.
Proof.
  induction l as [|x l IH]; cbn [List.filter existsb]; [done|].
  destruct (f x); [discriminate|]. exact IH.
Qed.

Lemma filter_none {A} (f : A -> bool) l :
  (forall x, x ∈ l -> f x = false) -> List.filter f l = [].
Proof.
  induction l as [|x l IH]; intros H; cbn [List.filter]; [done|].
  rewrite (H x) by (by left). apply IH. intros y Hy. apply H. by right.
Qed.

Lemma filter_id_none (uid : jsstring) (l : list UserRow) :
  uid ∉ List.map u_id l -> List.filter (fun r => bool_decide (u_id r = uid)) l = [].
Proof.
  intros Hnin. apply filter_none. intros r Hr. apply bool_decide_eq_false.
  intros <-. apply Hnin, list_elem_of_In, List.in_map. by apply list_elem_of_In.
Qed.

Lemma filter_settings_none {B} (uid : jsstring) (l : list (jsstring * B)) :
  uid ∉ List.map fst l -> List.filter (fun p => bool_decide (fst p = uid)) l = [].
Proof.
  intros Hnin. apply filter_none. intros r Hr. apply bool_decide_eq_false.
  intros <-. apply Hnin, list_elem_of_In, List.in_map. by apply list_elem_of_In.
Qed.

Lemma selectSettings_users db db' u :
  user_vocabulary_settings db' = user_vocabulary_settings db ->
  selectSettings db' u = selectSettings db u.
Proof. intros H. unfold selectSettings. by rewrite H. Qed.

Lemma rowToOptions_defaultSettings : rowToOptions defaultSettings = DEFAULT_VOCABULARY_OPTIONS.
Proof. vm_compute. reflexivity. Qed.

Section Sync.

Variable uuid : nat -> jsstring.

(** The store after the sync of a user that is not known. *)
Lemma d1SyncUserFromOAuth_new db p pid em name :
  wellFormed db ->
  uuid (next db) ∉ List.map u_id (users db) ->
  selectUserByProvider db p pid = None ->
  d1SyncUserFromOAuth uuid db p pid em name
  = Ok ({| users := users db
                      ++ [{| u_id := uuid (next db); provider := p;
                             provider_user_id := pid; email := em;
                             display_name := name |}];
           user_vocabulary_settings :=
             user_vocabulary_settings db ++ [(uuid (next db), defaultSettings)];
           next := S (next db) |},
        {| internal_id := uuid (next db); is_new_user := true |}).
Proof.
  intros (_ & _ & _ & Hfk) Hfresh Hsel.
  unfold d1SyncUserFromOAuth. rewrite Hsel.
  apply head_filter_None in Hsel as [_ Hex].
  unfold insertUser. cbn [u_id provider provider_user_id users].
  rewrite bool_decide_false by exact Hfresh. rewrite Hex.
  cbn [orb mbind result_bind]. unfold insertSettings.
  cbn [users user_vocabulary_settings next].
  rewrite bool_decide_false by (intros Hin; by apply Hfresh, Hfk).
  rewrite bool_decide_true; [reflexivity|].
  rewrite List.map_app. apply elem_of_app. right. by left.
Qed.

(** X22. Signing a user in through [d1SyncUserFromOAuth], on tables that
    satisfy their schema and with a new identifier to draw: the call does not
    throw and keeps the schema; a signed-in user is found again (same
    internal id, not new, tables unchanged) whatever e-mail and name the
    second call carries; a known user leaves the tables as they are; and a
    new user gets the profile of the call with the default settings, which
    resolve to [DEFAULT_VOCABULARY_OPTIONS], while the profiles of the other
    ids stay as before. *)
Theorem sync_user_idempotent
    (db : Db) (p pid : jsstring) (em name em2 name2 : option jsstring) :
  wellFormed db ->
  uuid (next db) ∉ List.map u_id (users db) ->
  exists db1 r1,
    d1SyncUserFromOAuth uuid db p pid em name = Ok (db1, r1)
    /\ wellFormed db1
    /\ d1SyncUserFromOAuth uuid db1 p pid em2 name2
       = Ok (db1, {| internal_id := internal_id r1; is_new_user := false |})
    /\ (is_new_user r1 = true <-> selectUserByProvider db p pid = None)
    /\ (is_new_user r1 = false -> db1 = db)
    /\ (is_new_user r1 = true ->
        d1GetUserProfile db1 (internal_id r1)
        = Some {| profile_id := internal_id r1; profile_display_name := name;
                  profile_email := em; settings := Some defaultSettings |}
        /\ getVocabularyOptionsForUser (internal_id r1)
             (fun u => Ok (selectSettings db1 u))
           = Ok DEFAULT_VOCABULARY_OPTIONS
        /\ forall u, u <> internal_id r1 -> d1GetUserProfile db1 u = d1GetUserProfile db u).
Proof.
  intros Hwf Hfresh.
  destruct (selectUserByProvider db p pid) as [existing|] eqn:Hsel.
  - exists db, {| internal_id := u_id existing; is_new_user := false |}.
    unfold d1SyncUserFromOAuth. rewrite Hsel. cbn [internal_id is_new_user].
    split_and!; done.
  - rewrite (d1SyncUserFromOAuth_new db p pid em name Hwf Hfresh Hsel).
    eexists _, _. split; [reflexivity|]. cbn [internal_id is_new_user].
    destruct (head_filter_None _ _ Hsel) as [Hnil Hex].
    destruct Hwf as (Hids & Hprov & Hset & Hfk).
    assert (uuid (next db) ∉ List.map fst (user_vocabulary_settings db)) as Hfresh'
      by (intros Hin; by apply Hfresh, Hfk).
    split_and!.
    + unfold wellFormed. cbn [users user_vocabulary_settings]. rewrite !List.map_app.
      cbn [List.map]. split_and!.
      * apply NoDup_app. split_and!; [done | | apply NoDup_singleton].
        by intros x Hx ->%list_elem_of_singleton.
      * apply NoDup_app. split_and!; [done | | apply NoDup_singleton].
        intros x Hx ->%list_elem_of_singleton.
        apply list_elem_of_In, List.in_map_iff in Hx as (r & [= Hp Hpid] & Hr).
        assert (existsb (hasProvider p pid) (users db) = true) as Hc.
        { apply List.existsb_exists. exists r. split; [done|].
          unfold hasProvider. by rewrite !bool_decide_true. }
        congruence.
      * apply NoDup_app. split_and!; [done | | apply NoDup_singleton].
        by intros x Hx ->%list_elem_of_singleton.
      * intros uid Hin. apply elem_of_app in Hin as [Hin|Hin];
          apply elem_of_app; [left; by apply Hfk | by right].
    + unfold d1SyncUserFromOAuth, selectUserByProvider. cbn [users].
      rewrite List.filter_app. unfold selectUserByProvider in Hnil. rewrite Hnil.
      cbn [List.filter app]. unfold hasProvider at 1. cbn [provider provider_user_id].
      rewrite !bool_decide_true by done. reflexivity.
    + done.
    + discriminate.
    + intros _. split_and!.
      * unfold d1GetUserProfile, selectUserById, selectSettings.
        cbn [users user_vocabulary_settings]. rewrite !List.filter_app.
        rewrite (filter_id_none _ _ Hfresh). cbn [List.filter app u_id].
        rewrite bool_decide_true by done. cbn [head u_id email display_name].
        rewrite List.filter_app, (filter_settings_none _ _ Hfresh').
        cbn [List.filter app fst]. rewrite bool_decide_true by done. reflexivity.
      * unfold getVocabularyOptionsForUser, selectSettings.
        cbn [user_vocabulary_settings mbind result_bind mret result_ret].
        rewrite List.filter_app, (filter_settings_none _ _ Hfresh').
        cbn [List.filter app fst]. rewrite bool_decide_true by done.
        cbn [head fmap option_fmap option_map snd].
        by rewrite rowToOptions_defaultSettings.
      * intros u Hu. unfold d1GetUserProfile, selectUserById.
        cbn [users]. rewrite List.filter_app. cbn [List.filter u_id].
        rewrite bool_decide_false by done. rewrite app_nil_r.
        destruct (head (List.filter _ (users db))) as [u0|] eqn:Hu0; [|done].
        assert (u_id u0 = u) as Hid.
        { revert Hu0.
          destruct (List.filter (fun r => bool_decide (u_id r = u)) (users db))
            as [|x f] eqn:Hf; [discriminate|].
          intros [= ->].
          assert (In u0 (List.filter (fun r => bool_decide (u_id r = u)) (users db)))
            as Hin by (rewrite Hf; by left).
          apply List.filter_In in Hin as [_ Hin]. by apply bool_decide_eq_true in Hin. }
        do 2 f_equal. unfold selectSettings. cbn [user_vocabulary_settings].
        rewrite List.filter_app. cbn [List.filter fst].
        rewrite bool_decide_false by congruence. by rewrite app_nil_r.
Qed.

End Sync.

Section Update.

Variables (userId : jsstring) (row : UserVocabularySettingsRow).

Local Abbreviation repl :=
  (fun p : jsstring * UserVocabularySettingsRow =>
     if bool_decide (fst p = userId) then (userId, row) else p).

Lemma repl_fst l : List.map fst (List.map repl l) = List.map fst l.
Proof.
  rewrite List.map_map. apply List.map_ext. intros p.
  by case_bool_decide.
Qed.

Lemma repl_again l : List.map repl (List.map repl l) = List.map repl l.
Proof.
  rewrite List.map_map. apply List.map_ext. intros p.
  cbn beta. destruct (bool_decide (fst p = userId)) eqn:Hp; cbn [fst].
  - by rewrite bool_decide_true.
  - by rewrite Hp.
Qed.

Lemma repl_other l u :
  u <> userId ->
  List.filter (fun p => bool_decide (fst p = u)) (List.map repl l)
  = List.filter (fun p => bool_decide (fst p = u)) l.
Proof.
  intros Hu. induction l as [|p l IH]; [done|]. cbn [List.map List.filter].
  rewrite IH. destruct (bool_decide (fst p = userId)) eqn:Hp; cbn [fst]; [|done].
  apply bool_decide_eq_true in Hp.
  rewrite (bool_decide_false (userId = u)) by congruence.
  by rewrite (bool_decide_false (fst p = u)) by congruence.
Qed.

Lemma repl_self l :
  userId ∈ List.map fst l ->
  head (List.filter (fun p => bool_decide (fst p = userId)) (List.map repl l))
  = Some (userId, row).
Proof.
  induction l as [|p l IH]; cbn [List.map List.filter].
  - intros Hin. by apply elem_of_nil in Hin.
  - intros Hin. destruct (bool_decide (fst p = userId)) eqn:Hp; cbn [fst].
    + by rewrite bool_decide_true.
    + rewrite Hp. apply IH. apply bool_decide_eq_false in Hp.
      apply elem_of_cons in Hin as [Hin|Hin]; [congruence | done].
Qed.

Lemma repl_none l :
  userId ∉ List.map fst l -> List.map repl l = l.
Proof.
  intros Hnin. rewrite <- (List.map_id l) at 2. apply List.map_ext_in.
  intros p Hp. rewrite bool_decide_false; [done|]. intros Heq. apply Hnin.
  rewrite <- Heq. apply list_elem_of_In, List.in_map, Hp.
Qed.

(** The settings upsert for a user that exists. *)
Lemma upsertSettings_run db :
  wellFormed db -> userId ∈ List.map u_id (users db) ->
  exists db',
    upsertSettings userId row db = Ok db'
    /\ wellFormed db' /\ users db' = users db
    /\ selectSettings db' userId = Some row
    /\ (forall u, u <> userId -> selectSettings db' u = selectSettings db u)
    /\ upsertSettings userId row db' = Ok db'.
Proof.
  intros (Hids & Hprov & Hset & Hfk) Huser. unfold upsertSettings.
  case_bool_decide as Hin.
  - eexists. split; [reflexivity|]. cbn [users user_vocabulary_settings].
    split_and!.
    + unfold wellFormed. cbn [users user_vocabulary_settings]. by rewrite repl_fst.
    + reflexivity.
    + unfold selectSettings. cbn [user_vocabulary_settings].
      by rewrite repl_self.
    + intros u Hu. unfold selectSettings. cbn [user_vocabulary_settings].
      by rewrite repl_other.
    + rewrite repl_fst, bool_decide_true by done. by rewrite repl_again.
  - unfold insertSettings. rewrite bool_decide_false, bool_decide_true by done.
    eexists. split; [reflexivity|]. cbn [users user_vocabulary_settings].
    split_and!.
    + unfold wellFormed. cbn [users user_vocabulary_settings]. rewrite List.map_app.
      split_and!; [done | done | |].
      * apply NoDup_app. split_and!; [done | | apply NoDup_singleton].
        by intros x Hx ->%list_elem_of_singleton.
      * intros uid Hu. apply elem_of_app in Hu as [Hu|Hu]; [by apply Hfk|].
        by apply list_elem_of_singleton in Hu as ->.
    + reflexivity.
    + unfold selectSettings. cbn [user_vocabulary_settings].
      rewrite List.filter_app, (filter_settings_none _ _ Hin).
      cbn [List.filter app fst]. by rewrite bool_decide_true.
    + intros u Hu. unfold selectSettings. cbn [user_vocabulary_settings].
      rewrite List.filter_app. cbn [List.filter fst].
      rewrite bool_decide_false by congruence. by rewrite app_nil_r.
    + rewrite List.map_app. cbn [List.map fst].
      rewrite bool_decide_true by (apply elem_of_app; right; by left).
      rewrite List.map_app, (repl_none _ Hin). cbn [List.map fst].
      by rewrite bool_decide_true.
Qed.

End Update.

(** X23. [d1UpdateUserVocabularySettings] for a user of the [users] table, on
    tables that satisfy their schema: it does not throw; the row stored for
    the user afterwards is the row returned, which has the fields of the
    payload and ['en', 'intermediate', 30, 2] for the fields the payload
    leaves out, whatever was stored before; the settings of the other users
    and the [users] table are unchanged; the vocabulary options resolved for
    the user afterwards are those of that row; and the same update again
    changes nothing. *)
Theorem update_settings_replaces_row
    (db : Db) (userId : jsstring) (payload : UpdateSettingsPayload) :
  wellFormed db ->
  userId ∈ List.map u_id (users db) ->
  let row :=
    {| row_language := default (js "en") (p_language payload);
       row_level := default (js "intermediate") (p_level payload);
       max_words := default (ofZ 30) (p_max_words payload);
       min_length := default (ofZ 2) (p_min_length payload) |} in
  exists db',
    d1UpdateUserVocabularySettings db userId payload = Ok (db', row)
    /\ wellFormed db'
    /\ users db' = users db
    /\ selectSettings db' userId = Some row
    /\ (forall u, u <> userId -> selectSettings db' u = selectSettings db u)
    /\ getVocabularyOptionsForUser userId (fun u => Ok (selectSettings db' u))
       = Ok (rowToOptions row)
    /\ d1UpdateUserVocabularySettings db' userId payload = Ok (db', row).
Proof.
  intros Hwf Huser row.
  destruct (upsertSettings_run userId row db Hwf Huser)
    as (db' & Hrun & Hwf' & Husers & Hself & Hother & Hagain).
  exists db'. unfold d1UpdateUserVocabularySettings. fold row.
  rewrite Hrun, Hagain. split_and!; try done.
  unfold getVocabularyOptionsForUser. by rewrite Hself.
Qed.

End UsersFacts.

Lemma sync_user_idempotent_witness :
  exists db1 r1,
    Users.d1SyncUserFromOAuth StoreSpec.sampleUuid Users.sampleDb (js "google")
      (js "g-2") (Some (js "bo@example.com")) None = Ok (db1, r1)
    /\ Users.wellFormed db1
    /\ Users.d1SyncUserFromOAuth StoreSpec.sampleUuid db1 (js "google") (js "g-2")
         None (Some (js "Bo"))
       = Ok (db1, {| Users.internal_id := Users.internal_id r1;
                     Users.is_new_user := false |})
    /\ (Users.is_new_user r1 = true
        <-> Users.selectUserByProvider Users.sampleDb (js "google") (js "g-2") = None)
    /\ (Users.is_new_user r1 = false -> db1 = Users.sampleDb)
    /\ (Users.is_new_user r1 = true ->
        Users.d1GetUserProfile db1 (Users.internal_id r1)
        = Some {| Users.profile_id := Users.internal_id r1;
                  Users.profile_display_name := None;
                  Users.profile_email := Some (js "bo@example.com");
                  Users.settings := Some Users.defaultSettings |}
        /\ getVocabularyOptionsForUser (Users.internal_id r1)
             (fun u => Ok (Users.selectSettings db1 u))
           = Ok DEFAULT_VOCABULARY_OPTIONS
        /\ forall u, u <> Users.internal_id r1 ->
             Users.d1GetUserProfile db1 u = Users.d1GetUserProfile Users.sampleDb u).
Proof.
  apply (UsersFacts.sync_user_idempotent StoreSpec.sampleUuid Users.sampleDb
           (js "google") (js "g-2") (Some (js "bo@example.com")) None None
           (Some (js "Bo"))).
  - split_and!; cbn.
    + apply NoDup_singleton.
    + apply NoDup_singleton.
    + apply NoDup_singleton.
    + intros uid Hin. exact Hin.
  - cbn. intros Hin. apply list_elem_of_singleton in Hin. discriminate.
Defined.

Lemma update_settings_replaces_row_witness :
  let row :=
    {| row_language := js "en"; row_level := js "beginner";
       max_words := ofZ 30; min_length := ofZ 2 |} in
  exists db',
    Users.d1UpdateUserVocabularySettings Users.sampleDb (js "u1") Users.levelOnly
    = Ok (db', row)
    /\ Users.wellFormed db'
    /\ Users.users db' = Users.users Users.sampleDb
    /\ Users.selectSettings db' (js "u1") = Some row
    /\ (forall u, u <> js "u1" ->
          Users.selectSettings db' u = Users.selectSettings Users.sampleDb u)
    /\ getVocabularyOptionsForUser (js "u1") (fun u => Ok (Users.selectSettings db' u))
       = Ok (rowToOptions row)
    /\ Users.d1UpdateUserVocabularySettings db' (js "u1") Users.levelOnly = Ok (db', row).
Proof.
  apply (UsersFacts.update_settings_replaces_row Users.sampleDb (js "u1") Users.levelOnly).
  - split_and!; cbn.
    + apply NoDup_singleton.
    + apply NoDup_singleton.
    + apply NoDup_singleton.
    + intros uid Hin. exact Hin.
  - cbn. by left.
Defined.

(* ===================================================================== *)
(** ** The guard of the protected routes *)
(* ===================================================================== *)

Lemma startsWith_app p s : startsWith p s = true <-> exists rest, s = p ++ rest.
Proof.
  revert s. induction p as [|a p IH]; intros s; cbn [startsWith].
  - split; [by exists s | done].
  - destruct s as [|b s].
    + split; [discriminate | by intros [rest ?]].
    + rewrite andb_true_iff, N.eqb_eq, IH. split.
      * intros [-> [rest ->]]. by exists rest.
      * intros [rest [= -> ->]]. split; [done | by exists rest].
Qed.

(** X24. [authEndpoint] passes a request on, with a user id, exactly when
    a secret is configured, the [Authorization] header is [Bearer ] followed
    by a text whose trimmed form is not empty, and [jwtVerify] accepts that
    trimmed text under the secret with a [sub] that is not empty; the user id
    is that [sub]. *)
Theorem auth_passes_only_verified_bearer
    (jwtVerify : jsstring -> jsstring -> result (option jsstring))
    (env : option Auth.JwtEnv) (authorization : option jsstring) (userId : jsstring) :
  Auth.authEndpoint jwtVerify env authorization = Auth.Next userId
  <-> exists secret rest,
        env = Some {| Auth.JWT_SECRET := secret |}
        /\ secret <> []
        /\ authorization = Some (js "Bearer " ++ rest)
        /\ trim rest <> []
        /\ jwtVerify (trim rest) secret = Ok (Some userId)
        /\ userId <> [].
Proof.
  unfold Auth.authEndpoint, Auth.getUserIdFromRequest, Auth.verifyJwt. split.
  - destruct env as [[secret]|]; [|discriminate]. cbn [Auth.JWT_SECRET].
    destruct secret as [|c0 secret]; [discriminate|]. cbn [nonEmpty negb].
    destruct authorization as [auth|]; [|discriminate].
    destruct (nonEmpty auth); cbn [negb orb]; [|discriminate].
    destruct (startsWith (js "Bearer ") auth) eqn:Hb; cbn [negb]; [|discriminate].
    apply startsWith_app in Hb as [rest ->].
    rewrite drop_app_length' by reflexivity.
    destruct (trim rest) as [|t0 token] eqn:Ht; cbn [nonEmpty negb]; [discriminate|].
    destruct (jwtVerify _ _) as [[[|c sub]|]|] eqn:Hv; try discriminate.
    intros [= <-]. exists (c0 :: secret), rest. rewrite Ht. by split_and!.
  - intros (secret & rest & -> & Hs & -> & Ht & Hv & Hu). cbn [Auth.JWT_SECRET].
    destruct secret as [|c0 secret]; [done|]. cbn [nonEmpty negb].
    assert (startsWith (js "Bearer ") (js "Bearer " ++ rest) = true) as ->
      by (apply startsWith_app; by exists rest).
    cbn [negb orb nonEmpty app js]. rewrite drop_app_length' by reflexivity.
    destruct (trim rest) as [|t0 token]; [done|]. cbn [nonEmpty negb].
    rewrite Hv. by destruct userId.
Qed.

Example auth_sample :
  let jwtVerify token secret :=
    if bool_decide (token = js "t1" /\ secret = js "s3cret") then Ok (Some (js "u1"))
    else Throw ModelError in
  Auth.authEndpoint jwtVerify (Some {| Auth.JWT_SECRET := js "s3cret" |})
    (Some (js "Bearer   t1 ")) = Auth.Next (js "u1")
  /\ Auth.authEndpoint jwtVerify (Some {| Auth.JWT_SECRET := js "s3cret" |})
       (Some (js "bearer t1")) = Auth.Unauthorized
  /\ Auth.authEndpoint jwtVerify (Some {| Auth.JWT_SECRET := js "s3cret" |})
       (Some (js "Bearer    ")) = Auth.Unauthorized
  /\ Auth.authEndpoint jwtVerify (Some {| Auth.JWT_SECRET := [] |})
       (Some (js "Bearer t1")) = Auth.ServiceUnavailable.
Proof. vm_compute. done. Qed.

(* ===================================================================== *)
(** ** The count after one upsert *)
(* ===================================================================== *)

Module StoreCounts.

Import Store StoreSpec StoreMore StoreFacts StoreIds.





End StoreCounts.


Example occurrences_below_one_count_as_one :
  addedCount
    [{| Store.e_word := js "a"; Store.e_meaning := None;
        Store.e_occurrences := Some (ofZ 0);
        Store.e_songTitle := None; Store.e_songArtist := None |};
     {| Store.e_word := js " a"; Store.e_meaning := None; Store.e_occurrences := None;
        Store.e_songTitle := None; Store.e_songArtist := None |};
     {| Store.e_word := js "a "; Store.e_meaning := None;
        Store.e_occurrences := Some (ofZ 3);
        Store.e_songTitle := None; Store.e_songArtist := None |}]
    (js "a")
  = ofZ 5.
Proof. vm_compute. reflexivity. Qed.
